(** * Istanbul consensus messages of kaia: the envelope, its RLP form,
      the phase order and the effective governance parameters.

    The development follows [consensus/istanbul/core/types.go] and the
    [EffectiveParamSet] method of the governance module.  Go pointers to
    [message] are locations of a heap, methods with a pointer receiver are
    computations over that heap, and [(value, error)] results are sums. *)

From Stdlib Require Import NArith ZArith Lia List.
From Stdlib.Strings Require Import Byte.
From stdpp Require Import base tactics option list gmap strings.

Abbreviation bytes := (list byte).

(** ** Bytes and big-endian integers *)

(** [uint64(b)] for a byte [b]. *)
Definition byte_val (b : byte) : N := Byte.to_N b.

(** [byte(i)]: the conversion keeps the low eight bits. *)
Definition to_byte (i : N) : byte := default x00 (Byte.of_N (i mod 256)%N).

(** The [k] low-order bytes of [i], most significant first. *)
Fixpoint be_digits (k : nat) (i : N) : bytes :=
  match k with
  | O => []
  | S k' => be_digits k' (i / 256)%N ++ [to_byte i]
  end.

(** [binary.BigEndian] reading of a byte string. *)
Definition be_value (bs : bytes) : N :=
  fold_left (fun acc b => (acc * 256 + byte_val b)%N) bs 0%N.

Definition uint64_max : N := (2 ^ 64)%N.

#[global] Instance byte_eq_decision : EqDecision byte := Byte.byte_eq_dec.

(** [bytes.Equal]. *)
Definition bytes_Equal (a b : bytes) : bool := bool_decide (a = b).

(** ** Errors

    Go has one [error] interface.  The sentinel values of package [rlp]
    (and [io]) come first, then the two of package [core] that
    [types.go] returns; [errVerify] wraps whatever the injected
    [validateFn] reports, which is a value of the caller's packages. *)
Inductive error : Type :=
  | EOL | EOF | ErrUnexpectedEOF
  | ErrExpectedString | ErrExpectedList
  | ErrCanonInt | ErrCanonSize
  | ErrElemTooLarge | ErrValueTooLarge
  | ErrMoreThanOneValue | errNotAtEOL | errUintOverflow
  | decodeError (msg : string)
  | errInvalidSigner | errInvalidMessage
  | errVerify (msg : string).

(** A Go result [(value, error)]. *)
Inductive result (A : Type) : Type :=
  | Ok (a : A)
  | Err (e : error).
Arguments Ok {A} a.
Arguments Err {A} e.

#[global] Instance result_ret : MRet result := @Ok.
#[global] Instance result_bind : MBind result :=
  fun A B f r => match r with Ok a => f a | Err e => Err e end.

(** ** The message envelope and the heap of envelopes

    [common.Hash] is [[32]byte] and [common.Address] is [[20]byte]; both
    are byte strings here and [message_ok] records their lengths. *)
Record message : Type := Message {
  Hash : bytes;
  Code : N;
  Msg : bytes;
  Address : bytes;
  Signature : bytes;
  CommittedSeal : bytes
}.

(** A [*message] is a location; dereferencing a location that holds no
    message is the nil-pointer panic, the [None] of the monad. *)
Abbreviation loc := nat (only parsing).
Abbreviation heap := (list message).

Definition M (A : Type) : Type := heap -> option (A * heap).

#[global] Instance M_ret : MRet M := fun A a h => Some (a, h).
#[global] Instance M_bind : MBind M :=
  fun A B f c h => match c h with Some (a, h') => f a h' | None => None end.

(** [*p] read, [*p = v] and [&message{...}]. *)
Definition load (p : loc) : M message :=
  fun h => match h !! p with Some v => Some (v, h) | None => None end.

Definition store (p : loc) (v : message) : M unit :=
  fun h => match h !! p with Some _ => Some (tt, <[p := v]> h) | None => None end.

Definition new (v : message) : M loc :=
  fun h => Some (length h, h ++ [v]).

(** ** Package [rlp] *)

Module rlp.

(** Modelled from the spec: package [rlp] of the repository, which
    [types.go] imports and whose source is not at hand.  It holds the
    deterministic serialization of the envelope and the decoder that fails
    with a decode error on truncated or malformed input.  [EncodeRLP]
    names the format, RLP: a byte slice or byte array is a string item, an
    unsigned integer is the string of its big-endian digits without
    leading zeros, a slice of values is a list item, and the decoder
    accepts canonical items only.  [value] is what [rlp.Encode] is given:
    a [[]byte] or [[n]byte], a [uint64], or a [[]interface{}]. *)
#[warnings="-register-all"]
Inductive value : Type :=
  | VBytes (b : bytes)
  | VUint (i : N)
  | VList (l : list value).

(** Modelled from the spec: [rlp.intsize], the number of bytes that hold
    a [uint64]; at most eight. *)
Fixpoint intsize_aux (k : nat) (i : N) : nat :=
  match k with
  | O => 1
  | S k' => if (i <? 256)%N then 1 else S (intsize_aux k' (i / 256)%N)
  end.

(** Modelled from the spec: [rlp.intsize] on a [uint64], whose first
    seven bytes are looked at before the eighth is taken. *)
Definition intsize (i : N) : nat := intsize_aux 7 i.

(** Modelled from the spec: [rlp.putint], the big-endian digits of [i],
    as few as hold it. *)
Definition putint (i : N) : bytes := be_digits (intsize i) i.

(** Modelled from the spec: [rlp.puthead], the header of an item of
    [size] bytes: one byte below 56, else the tag and the size's digits. *)
Definition puthead (smalltag largetag size : N) : bytes :=
  if (size <? 56)%N then [to_byte (smalltag + size)]
  else let s := putint size in
       to_byte (largetag + N.of_nat (length s)) :: s.

(** Modelled from the spec: the encoding of a byte slice or byte array; a
    single byte below [0x80] stands for itself. *)
Definition encodeBytes (b : bytes) : bytes :=
  match b with
  | [x] => if (byte_val x <? 128)%N then [x] else puthead 0x80 0xB7 1 ++ b
  | _ => puthead 0x80 0xB7 (N.of_nat (length b)) ++ b
  end.

(** Modelled from the spec: the encoding of a [uint64]. *)
Definition encodeUint (i : N) : bytes :=
  if (i =? 0)%N then [to_byte 0x80]
  else if (i <? 128)%N then [to_byte i]
  else let s := putint i in to_byte (0x80 + N.of_nat (length s)) :: s.

(** Modelled from the spec: the encoding of a value; a list is the
    header of its body followed by its items in order. *)
Fixpoint encode (v : value) : bytes :=
  match v with
  | VBytes b => encodeBytes b
  | VUint i => encodeUint i
  | VList l =>
      let body := concat (map encode l) in
      puthead 0xC0 0xF7 (N.of_nat (length body)) ++ body
  end.

(** Modelled from the spec: [rlp.Encode(w, val)], as what is written to
    [w]; none of the three shapes of value can fail to encode. *)
Definition Encode (val : value) : result bytes := Ok (encode val).

(** *** The stream decoder *)

(** Modelled from the spec: [rlp.Stream], as the unread input. *)
Abbreviation Stream := (list byte).

(** Modelled from the spec: [rlp.Kind], the three kinds of item. *)
Inductive Kind : Type := KByte | KString | KList.

(** Modelled from the spec: [Stream.readUint], a big-endian integer of
    [size] bytes without a leading zero. *)
Definition readUint (size : N) (s : Stream) : result (N * Stream) :=
  if (size =? 0)%N then Ok (0%N, s)
  else if (N.of_nat (length s) <? size)%N then Err ErrUnexpectedEOF
  else
    let d := take (N.to_nat size) s in
    if (byte_val (hd x00 d) =? 0)%N then Err ErrCanonSize
    else Ok (be_value d, drop (N.to_nat size) s).

(** Modelled from the spec: [Stream.readKind], the kind and size of the
    next item, or the byte itself for a single byte; a long header must
    not hold a size below 56. *)
Definition readKind (s : Stream) : result (Kind * N * byte * Stream) :=
  match s with
  | [] => Err EOF
  | b :: s' =>
      let t := byte_val b in
      if (t <? 0x80)%N then Ok (KByte, 0%N, b, s')
      else if (t <? 0xB8)%N then Ok (KString, (t - 0x80)%N, x00, s')
      else if (t <? 0xC0)%N then
        '(size, s'') ← readUint (t - 0xB7) s';
        if (size <? 56)%N then Err ErrCanonSize else Ok (KString, size, x00, s'')
      else if (t <? 0xF8)%N then Ok (KList, (t - 0xC0)%N, x00, s')
      else
        '(size, s'') ← readUint (t - 0xF7) s';
        if (size <? 56)%N then Err ErrCanonSize else Ok (KList, size, x00, s'')
  end.

(** Modelled from the spec: [Stream.Kind]; the next item must fit in
    what is left of the enclosing list, or of the input at top level. *)
Definition Stream_Kind (inList : bool) (s : Stream)
  : result (Kind * N * byte * Stream) :=
  match s with
  | [] => Err (if inList then EOL else EOF)
  | _ =>
      '(k, size, bv, s') ← readKind s;
      if (N.of_nat (length s') <? size)%N
      then Err (if inList then ErrElemTooLarge else ErrValueTooLarge)
      else Ok (k, size, bv, s')
  end.

(** Modelled from the spec: [Stream.Bytes], the decoder of [[]byte]. *)
Definition Stream_Bytes (inList : bool) (s : Stream) : result (bytes * Stream) :=
  '(k, size, bv, s') ← Stream_Kind inList s;
  match k with
  | KByte => Ok ([bv], s')
  | KString =>
      let b := take (N.to_nat size) s' in
      if (size =? 1)%N && (byte_val (hd x00 b) <? 128)%N then Err ErrCanonSize
      else Ok (b, drop (N.to_nat size) s')
  | KList => Err ErrExpectedString
  end.

(** Modelled from the spec: [rlp.decodeByteArray], the decoder of
    [[n]byte]: the string must have exactly [n] bytes. *)
Definition decodeByteArray (n : nat) (inList : bool) (s : Stream)
  : result (bytes * Stream) :=
  '(k, size, bv, s') ← Stream_Kind inList s;
  match k with
  | KByte =>
      if (n =? 0)%nat then Err (decodeError "input string too long")
      else if (1 <? n)%nat then Err (decodeError "input string too short")
      else Ok ([bv], s')
  | KString =>
      if (N.of_nat n <? size)%N then Err (decodeError "input string too long")
      else if (size <? N.of_nat n)%N then Err (decodeError "input string too short")
      else
        let b := take n s' in
        if (size =? 1)%N && (byte_val (hd x00 b) <? 128)%N then Err ErrCanonSize
        else Ok (b, drop n s')
  | KList => Err ErrExpectedString
  end.

(** Modelled from the spec: [Stream.uint(64)], the decoder of [uint64]:
    at most eight digits, none of them a leading zero. *)
Definition Stream_Uint64 (inList : bool) (s : Stream) : result (N * Stream) :=
  '(k, size, bv, s') ← Stream_Kind inList s;
  match k with
  | KByte =>
      if (byte_val bv =? 0)%N then Err ErrCanonInt else Ok (byte_val bv, s')
  | KString =>
      if (8 <? size)%N then Err errUintOverflow
      else
        match readUint size s' with
        | Err ErrCanonSize => Err ErrCanonInt
        | Err e => Err e
        | Ok (v, s'') =>
            if (0 <? size)%N && (v <? 128)%N then Err ErrCanonSize
            else Ok (v, s'')
        end
  | KList => Err ErrExpectedString
  end.

(** Modelled from the spec: the Go types of the fields that the struct
    decoder meets in [types.go]. *)
Inductive typ : Type :=
  | TByteArray (n : nat)
  | TByteSlice
  | TUint64.

(** Modelled from the spec: the decoder that [rlp] picks for a type. *)
Definition decodeValue (t : typ) (inList : bool) (s : Stream)
  : result (value * Stream) :=
  match t with
  | TByteArray n => '(b, s') ← decodeByteArray n inList s; Ok (VBytes b, s')
  | TByteSlice => '(b, s') ← Stream_Bytes inList s; Ok (VBytes b, s')
  | TUint64 => '(i, s') ← Stream_Uint64 inList s; Ok (VUint i, s')
  end.

(** Modelled from the spec: the fields of a struct, in order, out of the
    body of its list; a body that ends early has too few elements. *)
Fixpoint decodeFields (ts : list typ) (body : Stream)
  : result (list value * Stream) :=
  match ts with
  | [] => Ok ([], body)
  | t :: ts' =>
      match decodeValue t true body with
      | Err EOL => Err (decodeError "too few elements")
      | Err e => Err e
      | Ok (v, body') =>
          '(vs, body'') ← decodeFields ts' body';
          Ok (v :: vs, body'')
      end
  end.

(** Modelled from the spec: [Stream.List], entering a list; its body and
    what follows it. *)
Definition Stream_List (s : Stream) : result (Stream * Stream) :=
  '(k, size, _, s') ← Stream_Kind false s;
  match k with
  | KList => Ok (take (N.to_nat size) s', drop (N.to_nat size) s')
  | _ => Err ErrExpectedList
  end.

(** Modelled from the spec: [Stream.ListEnd]; the body must be used up. *)
Definition Stream_ListEnd (body : Stream) : result unit :=
  match body with
  | [] => Ok tt
  | _ => Err errNotAtEOL
  end.

(** Modelled from the spec: [Stream.Decode] into a pointer to a struct
    with fields [ts]. *)
Definition decodeStruct (ts : list typ) (s : Stream)
  : result (list value * Stream) :=
  '(body, after) ← Stream_List s;
  '(vs, body') ← decodeFields ts body;
  _ ← Stream_ListEnd body';
  Ok (vs, after).

(** Modelled from the spec: the interfaces [rlp.Encoder] and
    [rlp.Decoder].  An encoder writes to an [io.Writer]: the bytes written
    are its result. *)
Class Encoder (T : Type) : Type := EncodeRLP : T -> M (result bytes).
Class Decoder (T : Type) : Type :=
  DecodeRLP : T -> Stream -> M (Stream * option error).

(** Modelled from the spec: [rlp.EncodeToBytes] of a value that
    implements [Encoder]. *)
Definition EncodeToBytes {T : Type} `{Encoder T} (val : T) : M (result bytes) :=
  EncodeRLP val.

(** Modelled from the spec: [rlp.DecodeBytes] into a value that
    implements [Decoder]: one value, and no input left after it. *)
Definition DecodeBytes {T : Type} `{Decoder T} (b : bytes) (val : T)
  : M (option error) :=
  '(s, err) ← DecodeRLP val b;
  match err with
  | Some e => mret (Some e)
  | None =>
      match s with
      | [] => mret None
      | _ => mret (Some ErrMoreThanOneValue)
      end
  end.

End rlp.

(** ** Package [core]: phases *)

(** [type State uint64]. *)
Definition State : Type := N.

Definition StateAcceptRequest : State := 0%N.
Definition StatePreprepared : State := 1%N.
Definition StatePrepared : State := 2%N.
Definition StateCommitted : State := 3%N.

Definition State_String (s : State) : string :=
  if decide (s = StateAcceptRequest) then "Accept request"
  else if decide (s = StatePreprepared) then "Preprepared"
  else if decide (s = StatePrepared) then "Prepared"
  else if decide (s = StateCommitted) then "Committed"
  else "Unknown".

Definition Cmp (s y : State) : Z :=
  if (s <? y)%N then (-1)%Z
  else if (y <? s)%N then 1%Z
  else 0%Z.

(** The phases in their order, as the spec lists them. *)
Definition phases : list State :=
  [StateAcceptRequest; StatePreprepared; StatePrepared; StateCommitted].

(** ** Package [core]: message codes and the envelope's methods *)

Definition msgPreprepare : N := 0%N.
Definition msgPrepare : N := 1%N.
Definition msgCommit : N := 2%N.
Definition msgRoundChange : N := 3%N.
Definition msgAll : N := 4%N.

(** The six fields as [EncodeRLP] lists them. *)
Definition fields (v : message) : list rlp.value :=
  [rlp.VBytes (Hash v); rlp.VUint (Code v); rlp.VBytes (Msg v);
   rlp.VBytes (Address v); rlp.VBytes (Signature v);
   rlp.VBytes (CommittedSeal v)].

Definition EncodeRLP (m : loc) : M (result bytes) :=
  v ← load m;
  mret (rlp.Encode (rlp.VList (fields v))).

#[global] Instance message_Encoder : rlp.Encoder loc := EncodeRLP.

(** The anonymous struct [msg] of [DecodeRLP]. *)
Definition msg_struct : list rlp.typ :=
  [rlp.TByteArray 32; rlp.TUint64; rlp.TByteSlice;
   rlp.TByteArray 20; rlp.TByteSlice; rlp.TByteSlice].

(** The decoded [msg], read back as six field values. *)
Definition of_fields (vs : list rlp.value) : option message :=
  match vs with
  | [rlp.VBytes h; rlp.VUint c; rlp.VBytes g;
     rlp.VBytes a; rlp.VBytes sg; rlp.VBytes cs] =>
      Some (Message h c g a sg cs)
  | _ => None
  end.

(** [s.Decode(&msg)]. *)
Definition decode_msg (s : rlp.Stream) : result (message * rlp.Stream) :=
  '(vs, s') ← rlp.decodeStruct msg_struct s;
  match of_fields vs with
  | Some msg => Ok (msg, s')
  | None => Err (decodeError "rlp: type mismatch")
  end.

Definition DecodeRLP (m : loc) (s : rlp.Stream) : M (rlp.Stream * option error) :=
  match decode_msg s with
  | Err e => mret (s, Some e)
  | Ok (msg, s') =>
      _ ← store m msg;
      mret (s', None)
  end.

#[global] Instance message_Decoder : rlp.Decoder loc := DecodeRLP.

Definition Payload (m : loc) : M (result bytes) :=
  rlp.EncodeToBytes m.

Definition PayloadNoSig (m : loc) : M (result bytes) :=
  v ← load m;
  p ← new {| Hash := Hash v;
             Code := Code v;
             Msg := Msg v;
             Address := Address v;
             Signature := [];
             CommittedSeal := CommittedSeal v |};
  rlp.EncodeToBytes p.

(** What [validateFn] returns: the signer's address, or its own error. *)
Inductive recovered : Type :=
  | Signer (addr : bytes)
  | Refused (msg : string).

Abbreviation validator := (bytes -> bytes -> recovered).

(** [validateFn] is [None] for a nil func. *)
Definition FromPayload (m : loc) (b : bytes) (validateFn : option validator)
  : M (option error) :=
  err ← rlp.DecodeBytes b m;
  match err with
  | Some e => mret (Some e)
  | None =>
      match validateFn with
      | None => mret None
      | Some f =>
          r ← PayloadNoSig m;
          match r with
          | Err e => mret (Some e)
          | Ok payload =>
              v ← load m;
              match f payload (Signature v) with
              | Refused e => mret (Some (errVerify e))
              | Signer signerAddr =>
                  if negb (bytes_Equal signerAddr (Address v))
                  then mret (Some errInvalidSigner)
                  else mret None
              end
          end
      end
  end.

(** [m.Decode(val)]: the target shape [val] is given by its decoder. *)
Definition Decode {T : Type} (m : loc) (val : bytes -> result T) : M (result T) :=
  v ← load m;
  mret (val (Msg v)).

(** Modelled from the spec: the types [istanbul.View],
    [istanbul.Preprepare] and [istanbul.Subject], declared outside the
    files at hand.  A view is the pair (sequence, round); a proposal is
    [{view, block-candidate}]; a subject is [{view, digest}]. *)
Record View : Type := { Sequence : N; Round : N }.

Record Preprepare (Proposal : Type) : Type :=
  { Preprepare_View : View; Preprepare_Proposal : Proposal }.
Arguments Preprepare_View {Proposal} p.
Arguments Preprepare_Proposal {Proposal} p.

Record Subject : Type := { Subject_View : View; Subject_Digest : bytes }.

Section GetView.
(** The block candidate and the two inner decoders belong to packages
    [istanbul] and [rlp]; they are taken as given. *)
Variable Proposal : Type.
Variable decodePreprepare : bytes -> result (Preprepare Proposal).
Variable decodeSubject : bytes -> result Subject.

Definition GetView (m : loc) : M (result View) :=
  v ← load m;
  if decide (Code v = msgPreprepare) then
    r ← Decode m decodePreprepare;
    match r with
    | Err decodeErr => mret (Err decodeErr)
    | Ok preprepare => mret (Ok (Preprepare_View preprepare))
    end
  else if decide (Code v = msgPrepare \/ Code v = msgCommit \/ Code v = msgRoundChange) then
    r ← Decode m decodeSubject;
    match r with
    | Err decodeErr => mret (Err decodeErr)
    | Ok subject => mret (Ok (Subject_View subject))
    end
  else mret (Err errInvalidMessage).
End GetView.

(** ** Package [impl]: the effective governance parameters *)

Section Gov.
(** [gov.ParamName] and the dynamic values of a [gov.PartialParamSet]. *)
Context {ParamName : Type} `{Countable ParamName}.
Variable any : Type.

(** The struct [gov.ParamSet] and its method [Set] are declared outside
    the files at hand.  A parameter set holds one value per parameter
    name, and [Set(k, v)] assigns the one named [k]. *)
Abbreviation ParamSet := (gmap ParamName any).
Abbreviation PartialParamSet := (gmap ParamName any).

(** What [ParamSet.Set] stores for [(k, v)], or [None] where it returns
    an error and leaves the set as it was. *)
Variable canonical : ParamName -> any -> option any.

(** The set that [gov.GetDefaultGovernanceParamSet()] returns. *)
Variable GetDefaultGovernanceParamSet : ParamSet.

(** The order in which a [range] loop visits a map, which Go leaves
    open. *)
Variable range : PartialParamSet -> list (ParamName * any).

(** [ret.Set(k, v)] with its error dropped, as the loops do. *)
Definition ParamSet_Set (ret : ParamSet) (k : ParamName) (v : any) : ParamSet :=
  match canonical k v with
  | Some v' => <[k := v']> ret
  | None => ret
  end.

(** [for k, v := range p { ret.Set(k, v) }]. *)
Definition range_Set (p : PartialParamSet) (ret : ParamSet) : ParamSet :=
  foldl (fun r kv => ParamSet_Set r kv.1 kv.2) ret (range p).

Record GovModule : Type := {
  Hgm_EffectiveParamsPartial : N -> PartialParamSet;
  Cgm_EffectiveParamsPartial : N -> PartialParamSet;
  isKoreHF : N -> bool
}.

Definition EffectiveParamSet (m : GovModule) (blockNum : N) : ParamSet :=
  let ret := GetDefaultGovernanceParamSet in
  let p1 := Hgm_EffectiveParamsPartial m blockNum in
  let ret := range_Set p1 ret in
  if isKoreHF m blockNum then
    let p2 := Cgm_EffectiveParamsPartial m blockNum in
    range_Set p2 ret
  else ret.

(** The spec's reading: [base] overlaid with what [Set] accepts of [p]. *)
Definition overlay (p : PartialParamSet) (base : ParamSet) : ParamSet :=
  map_imap canonical p ∪ base.
End Gov.

(** ** Well-formed values *)

(** The wire form of an envelope, the bytes [EncodeRLP] writes, and the
    body of its list. *)
Definition body (v : message) : bytes := concat (map rlp.encode (fields v)).
Definition wire (v : message) : bytes := rlp.encode (rlp.VList (fields v)).

(** A value that a Go variable of type [t] can hold. *)
Definition fits (t : rlp.typ) (v : rlp.value) : Prop :=
  match t, v with
  | rlp.TByteArray n, rlp.VBytes b => length b = n /\ (N.of_nat n < uint64_max)%N
  | rlp.TByteSlice, rlp.VBytes b => (N.of_nat (length b) < uint64_max)%N
  | rlp.TUint64, rlp.VUint i => (i < uint64_max)%N
  | _, _ => False
  end.

(** A valid envelope: the array fields have their lengths, the code is a
    [uint64], and the encoded size is one ([int] lengths are). *)
Definition message_ok (v : message) : Prop :=
  length (Hash v) = 32 /\ length (Address v) = 20 /\
  (Code v < uint64_max)%N /\ (N.of_nat (length (body v)) < uint64_max)%N.

(** The envelope that [PayloadNoSig] builds from [v]. *)
Definition unsigned (v : message) : message :=
  {| Hash := Hash v; Code := Code v; Msg := Msg v; Address := Address v;
     Signature := []; CommittedSeal := CommittedSeal v |}.

(** The bytes of the header that [readKind] reports as [(k, size, bv)]. *)
Definition header_of (k : rlp.Kind) (size : N) (bv : byte) : bytes :=
  match k with
  | rlp.KByte => [bv]
  | rlp.KString => rlp.puthead 0x80 0xB7 size
  | rlp.KList => rlp.puthead 0xC0 0xF7 size
  end.

(** The spec's [DecodeError]: an error of the decoder, none of the
    sentinels of package [core] and not an error of the callback. *)
Definition DecodeError (e : error) : bool :=
  match e with
  | errInvalidSigner | errInvalidMessage | errVerify _ => false
  | _ => true
  end.

(** Two envelopes that agree on every field but [CommittedSeal]. *)
Definition same_but_seal (v1 v2 : message) : Prop :=
  Hash v1 = Hash v2 /\ Code v1 = Code v2 /\ Msg v1 = Msg v2 /\
  Address v1 = Address v2 /\ Signature v1 = Signature v2.

(** Two envelopes that agree on every field but [Signature]. *)
Definition same_but_signature (v1 v2 : message) : Prop :=
  Hash v1 = Hash v2 /\ Code v1 = Code v2 /\ Msg v1 = Msg v2 /\
  Address v1 = Address v2 /\ CommittedSeal v1 = CommittedSeal v2.

(** The value part of a run, without the heap it leaves. *)
Definition returns {A : Type} (c : M A) (h : heap) : option A := fst <$> c h.

Definition result_map {A B : Type} (f : A -> B) (r : result A) : result B :=
  match r with
  | Ok a => Ok (f a)
  | Err e => Err e
  end.

(** How [rlp.DecodeBytes] into the envelope at [p] rejects [b]: it
    returns a decode error, and so does [FromPayload] with any callback;
    the envelope at [p] is then as before, or it is a whole valid
    envelope whose wire form [b] starts with. *)
Definition rejects (h : heap) (p : loc) (b : bytes) : Prop :=
  exists (e : error) (h' : heap),
    rlp.DecodeBytes b p h = Some (Some e, h') /\
    DecodeError e = true /\
    (forall validateFn, FromPayload p b validateFn h = Some (Some e, h')) /\
    (h' = h \/
     exists v rest, message_ok v /\ b = wire v ++ rest /\ rest <> [] /\
                    h' = <[p := v]> h).

(** ** Sample values *)

Definition sample : message :=
  Message (replicate 32 x11) 1 [x05] (replicate 20 x22) [x07] [xff].

Definition sample_other_seal : message :=
  Message (replicate 32 x11) 1 [x05] (replicate 20 x22) [x07] [].

Definition sample_other_signature : message :=
  Message (replicate 32 x11) 1 [x05] (replicate 20 x22) [x09; x0a] [xff].

Definition sample_kind_99 : message :=
  Message (replicate 32 x11) 99 [x05] (replicate 20 x22) [x07] [].

(** The zero value [message{}]. *)
Definition blank : message :=
  Message (replicate 32 x00) 0 [] (replicate 20 x00) [] [].

(** A callback that recovers the zero address from every signature. *)
Definition zero_signer : validator := fun _ _ => Signer (replicate 20 x00).

(** A callback that recovers the sender of [sample]. *)
Definition sample_signer : validator := fun _ _ => Signer (replicate 20 x22).

(** A callback that refuses every signature. *)
Definition refusing : validator := fun _ _ => Refused "invalid signature".

(** A governance module whose Kore fork is at block 100. *)
Definition sample_default : gmap string nat :=
  {[ "governance.unitprice" := 250; "istanbul.committeesize" := 13 ]}.

Definition sample_gov : GovModule (ParamName := string) nat := {|
  Hgm_EffectiveParamsPartial := fun _ => {[ "governance.unitprice" := 500 ]};
  Cgm_EffectiveParamsPartial := fun _ =>
    {[ "governance.unitprice" := 750; "istanbul.committeesize" := 0 ]};
  isKoreHF := fun blockNum => (100 <=? blockNum)%N
|}.

(** A [Set] that refuses a zero value. *)
Definition sample_canonical (k : string) (v : nat) : option nat :=
  if decide (v = 0) then None else Some v.

(** The helper [Encode] at the end of [types.go]. *)
Definition Encode {T : Type} `{rlp.Encoder T} (val : T) : M (result bytes) :=
  rlp.EncodeToBytes val.

(** Inner decoders for the sample runs of [GetView]: every payload holds
    the view (10, 0), as a proposal or as a subject. *)
Definition sample_decodePreprepare (b : bytes) : result (Preprepare bytes) :=
  Ok {| Preprepare_View := Build_View 10 0; Preprepare_Proposal := b |}.

Definition sample_decodeSubject (b : bytes) : result Subject :=
  Ok {| Subject_View := Build_View 10 0; Subject_Digest := b |}.

(** A governance module whose contract parameters hold nothing that [Set]
    accepts. *)
Definition sample_gov_refused : GovModule (ParamName := string) nat := {|
  Hgm_EffectiveParamsPartial := fun _ => {[ "governance.unitprice" := 500 ]};
  Cgm_EffectiveParamsPartial := fun _ => {[ "istanbul.committeesize" := 0 ]};
  isKoreHF := fun blockNum => (100 <=? blockNum)%N
|}.

(** What [GetView] returns for a receiver that holds [v]: the dispatch on
    the code, without the heap. *)
Definition view_of {Proposal : Type}
    (decodePreprepare : bytes -> result (Preprepare Proposal))
    (decodeSubject : bytes -> result Subject) (v : message) : result View :=
  if decide (Code v = msgPreprepare) then
    result_map Preprepare_View (decodePreprepare (Msg v))
  else if decide (Code v = msgPrepare \/ Code v = msgCommit \/ Code v = msgRoundChange) then
    result_map Subject_View (decodeSubject (Msg v))
  else Err errInvalidMessage.

Ltac ltb_cases :=
  repeat match goal with
  | |- context [(?a <? ?b)%N] => destruct (N.ltb_spec a b); try lia
  | |- context [(?a =? ?b)%N] => destruct (N.eqb_spec a b); try lia
  end.

(** * Proofs *)

(** ** Bytes *)

Lemma byte_val_lt (b : byte) : (byte_val b < 256)%N.
Proof. unfold byte_val. pose proof (Byte.to_N_bounded b). lia. Qed.

Lemma to_byte_val (b : byte) : to_byte (byte_val b) = b.
Proof.
  unfold to_byte, byte_val.
  rewrite N.mod_small by apply byte_val_lt.
  by rewrite Byte.of_to_N.
Qed.

Lemma byte_val_to_byte (i : N) : byte_val (to_byte i) = (i mod 256)%N.
Proof.
  unfold to_byte, byte_val.
  destruct (Byte.of_N (i mod 256)) as [b|] eqn:E.
  - simpl. by apply Byte.to_of_N.
  - apply Byte.of_N_None_iff in E.
    pose proof (N.mod_upper_bound i 256). lia.
Qed.

Lemma byte_val_to_byte_small (i : N) : (i < 256)%N -> byte_val (to_byte i) = i.
Proof. intros. rewrite byte_val_to_byte. by apply N.mod_small. Qed.

(** ** Big-endian digits *)

Lemma length_be_digits (k : nat) (i : N) : length (be_digits k i) = k.
Proof.
  revert i. induction k as [|k IH]; intros i; simpl; [done|].
  rewrite length_app, IH. simpl. lia.
Qed.

Lemma be_value_snoc (bs : bytes) (x : byte) :
  be_value (bs ++ [x]) = (be_value bs * 256 + byte_val x)%N.
Proof. unfold be_value. by rewrite fold_left_app. Qed.

Lemma be_value_lt (bs : bytes) : (be_value bs < 256 ^ N.of_nat (length bs))%N.
Proof.
  induction bs as [|x bs IH] using rev_ind; [simpl; unfold be_value; simpl; lia|].
  rewrite be_value_snoc, length_app. simpl length.
  replace (N.of_nat (length bs + 1)) with (N.succ (N.of_nat (length bs))) by lia.
  rewrite N.pow_succ_r'. pose proof (byte_val_lt x). lia.
Qed.

Lemma be_value_be_digits (k : nat) (i : N) :
  be_value (be_digits k i) = (i mod 256 ^ N.of_nat k)%N.
Proof.
  revert i. induction k as [|k IH]; intros i.
  - simpl. by rewrite N.mod_1_r.
  - simpl be_digits. rewrite be_value_snoc, IH, byte_val_to_byte.
    replace (N.of_nat (S k)) with (N.succ (N.of_nat k)) by lia.
    rewrite N.pow_succ_r'.
    rewrite (N.Div0.mod_mul_r i 256 (256 ^ N.of_nat k)). lia.
Qed.

Lemma be_digits_be_value (bs : bytes) : be_digits (length bs) (be_value bs) = bs.
Proof.
  induction bs as [|x bs IH] using rev_ind; [done|].
  rewrite length_app. simpl length. rewrite Nat.add_1_r. simpl be_digits.
  rewrite be_value_snoc. pose proof (byte_val_lt x).
  replace ((be_value bs * 256 + byte_val x) / 256)%N with (be_value bs).
  - rewrite IH. f_equal. f_equal.
    rewrite <- (to_byte_val x) at 2. unfold to_byte. f_equal. f_equal.
    rewrite N.add_comm, N.Div0.mod_add. rewrite !N.mod_small; lia.
  - symmetry. rewrite N.add_comm, N.div_add by lia.
    rewrite N.div_small; lia.
Qed.

Lemma be_value_cons (x : byte) (bs : bytes) :
  be_value (x :: bs) = (byte_val x * 256 ^ N.of_nat (length bs) + be_value bs)%N.
Proof.
  revert x. induction bs as [|y bs IH] using rev_ind; intros x.
  - unfold be_value. simpl. lia.
  - rewrite app_comm_cons, !be_value_snoc, IH, length_app. simpl length.
    replace (N.of_nat (length bs + 1)) with (N.succ (N.of_nat (length bs))) by lia.
    rewrite N.pow_succ_r'. lia.
Qed.

(** A string without a leading zero is at least [256 ^ (length - 1)]. *)
Lemma be_value_lower (x : byte) (bs : bytes) :
  byte_val x <> 0%N -> (256 ^ N.of_nat (length bs) <= be_value (x :: bs))%N.
Proof. intros Hx. rewrite be_value_cons. nia. Qed.

(** ** [intsize] and [putint] *)

Lemma pow256_S (n : nat) : (256 ^ N.of_nat (S n) = 256 * 256 ^ N.of_nat n)%N.
Proof.
  replace (N.of_nat (S n)) with (N.succ (N.of_nat n)) by lia.
  apply N.pow_succ_r'.
Qed.

Lemma pow256_pos (n : nat) : (0 < 256 ^ N.of_nat n)%N.
Proof. apply N.neq_0_lt_0, N.pow_nonzero. lia. Qed.

Lemma intsize_aux_bounds (k : nat) (i : N) :
  (i < 256 ^ N.of_nat (S k))%N ->
  (1 <= rlp.intsize_aux k i <= S k)%nat /\
  (i < 256 ^ N.of_nat (rlp.intsize_aux k i))%N /\
  (rlp.intsize_aux k i = 1%nat \/
   256 ^ N.of_nat (rlp.intsize_aux k i - 1) <= i)%N.
Proof.
  revert i. induction k as [|k IH]; intros i Hi.
  - simpl. split; [lia|]. split; [exact Hi|by left].
  - simpl rlp.intsize_aux. destruct (N.ltb_spec i 256) as [Hlt|Hge].
    + split; [lia|]. split; [simpl; lia|by left].
    + rewrite pow256_S in Hi.
      assert (Hd : (i / 256 < 256 ^ N.of_nat (S k))%N)
        by (apply N.Div0.div_lt_upper_bound; lia).
      destruct (IH _ Hd) as (Hr & Hu & Hl).
      split; [lia|]. split.
      * rewrite pow256_S.
        pose proof (N.div_mod i 256 ltac:(lia)).
        pose proof (N.mod_upper_bound i 256 ltac:(lia)). lia.
      * right. replace (S (rlp.intsize_aux k (i / 256)) - 1)%nat
          with (rlp.intsize_aux k (i / 256)) by lia.
        destruct Hl as [Hl|Hl].
        -- rewrite Hl. simpl. lia.
        -- destruct (rlp.intsize_aux k (i / 256)) as [|n] eqn:En; [lia|].
           rewrite pow256_S. replace (S n - 1)%nat with n in Hl by lia.
           pose proof (N.Div0.mul_div_le i 256). lia.
Qed.

Lemma intsize_aux_unique (k n : nat) (i : N) :
  (1 <= n <= S k)%nat ->
  (i < 256 ^ N.of_nat n)%N ->
  (n = 1%nat \/ 256 ^ N.of_nat (n - 1) <= i)%N ->
  rlp.intsize_aux k i = n.
Proof.
  revert n i. induction k as [|k IH]; intros n i Hn Hu Hl; [simpl; lia|].
  simpl. destruct (N.ltb_spec i 256) as [Hlt|Hge].
  - destruct Hl as [Hl|Hl]; [done|].
    destruct n as [|[|n]]; [lia|done|].
    exfalso. replace (S (S n) - 1)%nat with (S n) in Hl by lia.
    rewrite pow256_S in Hl. pose proof (pow256_pos n). lia.
  - destruct n as [|[|n]]; [lia|simpl in Hu; lia|].
    f_equal. apply IH; [lia| |].
    + rewrite pow256_S in Hu. apply N.Div0.div_lt_upper_bound. lia.
    + destruct Hl as [Hl|Hl]; [lia|].
      replace (S (S n) - 1)%nat with (S n) in Hl by lia.
      destruct n as [|n]; [by left|right].
      replace (S (S n) - 1)%nat with (S n) by lia. rewrite pow256_S in Hl.
      apply N.div_le_lower_bound; lia.
Qed.

Lemma uint64_max_pow : uint64_max = (256 ^ N.of_nat 8)%N.
Proof. reflexivity. Qed.

Lemma length_putint (i : N) : length (rlp.putint i) = rlp.intsize i.
Proof. apply length_be_digits. Qed.

Lemma intsize_range (i : N) :
  (i < uint64_max)%N -> (1 <= rlp.intsize i <= 8)%nat.
Proof.
  intros Hi. rewrite uint64_max_pow in Hi.
  by destruct (intsize_aux_bounds 7 i Hi) as (? & _).
Qed.

Lemma be_value_putint (i : N) :
  (i < uint64_max)%N -> be_value (rlp.putint i) = i.
Proof.
  intros Hi. rewrite uint64_max_pow in Hi.
  destruct (intsize_aux_bounds 7 i Hi) as (_ & Hu & _).
  unfold rlp.putint, rlp.intsize. rewrite be_value_be_digits.
  by apply N.mod_small.
Qed.

(** [putint] of a positive number starts with a digit that is not zero. *)
Lemma putint_head (i : N) :
  (0 < i < uint64_max)%N -> byte_val (hd x00 (rlp.putint i)) <> 0%N.
Proof.
  intros [Hpos Hi] Hz.
  pose proof (be_value_putint i Hi) as Hv.
  pose proof (length_putint i) as Hlen.
  rewrite uint64_max_pow in Hi.
  destruct (intsize_aux_bounds 7 i Hi) as (Hr & _ & Hl).
  fold (rlp.intsize i) in Hr, Hl.
  destruct (rlp.putint i) as [|x bs] eqn:E; simpl in *; [lia|].
  rewrite be_value_cons, Hz in Hv. simpl in Hv.
  pose proof (be_value_lt bs) as Hb.
  destruct Hl as [Hl|Hl].
  - assert (bs = []) as -> by (destruct bs; [done|simpl in Hlen; lia]).
    unfold be_value in Hv. simpl in Hv. lia.
  - rewrite <- Hlen in Hl. replace (S (length bs) - 1)%nat with (length bs) in Hl by lia.
    lia.
Qed.

(** A digit string of one to eight bytes without a leading zero is the
    [putint] of its value. *)
Lemma putint_be_value (bs : bytes) :
  (1 <= length bs <= 8)%nat ->
  byte_val (hd x00 bs) <> 0%N ->
  rlp.putint (be_value bs) = bs.
Proof.
  intros Hlen Hhd. unfold rlp.putint, rlp.intsize.
  rewrite (intsize_aux_unique 7 (length bs)); [apply be_digits_be_value|lia|apply be_value_lt|].
  destruct bs as [|x bs]; [simpl in Hlen; lia|].
  simpl in Hhd. simpl length.
  destruct bs as [|y bs]; [by left|right].
  replace (S (length (y :: bs)) - 1)%nat with (length (y :: bs)) by (simpl; lia).
  by apply be_value_lower.
Qed.

Lemma be_value_uint64 (bs : bytes) :
  (length bs <= 8)%nat -> (be_value bs < uint64_max)%N.
Proof.
  intros Hlen. pose proof (be_value_lt bs) as Hb.
  rewrite uint64_max_pow.
  eapply N.lt_le_trans; [exact Hb|].
  apply N.pow_le_mono_r; lia.
Qed.

(** ** Item headers: [puthead] against [readKind] *)

Lemma readUint_putint (i : N) (rest : bytes) :
  (0 < i < uint64_max)%N ->
  rlp.readUint (N.of_nat (length (rlp.putint i))) (rlp.putint i ++ rest)
  = Ok (i, rest).
Proof.
  intros Hi. pose proof (intsize_range i ltac:(lia)) as Hr.
  rewrite <- length_putint in Hr.
  unfold rlp.readUint. rewrite length_app, Nat2N.id.
  rewrite take_app_length, drop_app_length.
  destruct (N.eqb_spec (N.of_nat (length (rlp.putint i))) 0) as [|_]; [lia|].
  destruct (N.ltb_spec (N.of_nat (length (rlp.putint i) + length rest))
              (N.of_nat (length (rlp.putint i)))) as [|_]; [lia|].
  destruct (N.eqb_spec (byte_val (hd x00 (rlp.putint i))) 0) as [Hz|_].
  - by apply putint_head in Hz.
  - rewrite be_value_putint by lia. done.
Qed.

Lemma readUint_inv (size : N) (s s' : bytes) (v : N) :
  (1 <= size <= 8)%N ->
  rlp.readUint size s = Ok (v, s') ->
  s = rlp.putint v ++ s' /\ size = N.of_nat (length (rlp.putint v)) /\
  (0 < v < uint64_max)%N.
Proof.
  intros Hsize. unfold rlp.readUint.
  destruct (N.eqb_spec size 0) as [|_]; [lia|].
  destruct (N.ltb_spec (N.of_nat (length s)) size) as [|Hlen]; [done|].
  destruct (N.eqb_spec (byte_val (hd x00 (take (N.to_nat size) s))) 0) as [|Hhd]; [done|].
  intros [= <- <-].
  set (d := take (N.to_nat size) s) in *.
  assert (Hd : length d = N.to_nat size) by (subst d; rewrite length_take; lia).
  assert (Hp : rlp.putint (be_value d) = d) by (apply putint_be_value; [lia|done]).
  rewrite Hp. split; [subst d; by rewrite take_drop|].
  split; [lia|]. split; [|apply be_value_uint64; lia].
  destruct d as [|x d']; [simpl in Hd; lia|]. simpl in Hhd.
  pose proof (be_value_lower x d' Hhd). pose proof (pow256_pos (length d')). lia.
Qed.

Lemma readKind_puthead_string (size : N) (rest : bytes) :
  (size < uint64_max)%N ->
  rlp.readKind (rlp.puthead 0x80 0xB7 size ++ rest)
  = Ok (rlp.KString, size, x00, rest).
Proof.
  intros Hsize. unfold rlp.puthead.
  destruct (N.ltb_spec size 56) as [Hs|Hl].
  - simpl. rewrite byte_val_to_byte_small by lia. ltb_cases.
    by replace (128 + size - 128)%N with size by lia.
  - pose proof (intsize_range size Hsize) as Hr. rewrite <- length_putint in Hr.
    simpl. rewrite byte_val_to_byte_small by lia. ltb_cases.
    replace (183 + N.of_nat (length (rlp.putint size)) - 183)%N
      with (N.of_nat (length (rlp.putint size))) by lia.
    rewrite readUint_putint by lia. simpl. by ltb_cases.
Qed.

Lemma readKind_puthead_list (size : N) (rest : bytes) :
  (size < uint64_max)%N ->
  rlp.readKind (rlp.puthead 0xC0 0xF7 size ++ rest)
  = Ok (rlp.KList, size, x00, rest).
Proof.
  intros Hsize. unfold rlp.puthead.
  destruct (N.ltb_spec size 56) as [Hs|Hl].
  - simpl. rewrite byte_val_to_byte_small by lia. ltb_cases.
    by replace (192 + size - 192)%N with size by lia.
  - pose proof (intsize_range size Hsize) as Hr. rewrite <- length_putint in Hr.
    simpl. rewrite byte_val_to_byte_small by lia. ltb_cases.
    replace (247 + N.of_nat (length (rlp.putint size)) - 247)%N
      with (N.of_nat (length (rlp.putint size))) by lia.
    rewrite readUint_putint by lia. simpl. by ltb_cases.
Qed.

Lemma long_header_inv (tag base : N) (b : byte) (s s' : bytes) (size : N) :
  byte_val b = tag -> (base + 1 <= tag <= base + 8)%N -> (base + 8 < 256)%N ->
  (size <? 56)%N = false ->
  rlp.readUint (tag - base) s = Ok (size, s') ->
  b :: s = (to_byte (base + N.of_nat (length (rlp.putint size))) :: rlp.putint size) ++ s'
  /\ (size < uint64_max)%N.
Proof.
  intros Hb Htag Hbase Hsz Hr.
  apply readUint_inv in Hr as (-> & Hlen & Hv); [|lia].
  split; [|lia]. simpl. f_equal.
  rewrite <- Hlen. replace (base + (tag - base))%N with tag by lia.
  by rewrite <- Hb, to_byte_val.
Qed.

Lemma readKind_inv (s s' : bytes) (k : rlp.Kind) (size : N) (bv : byte) :
  rlp.readKind s = Ok (k, size, bv, s') ->
  s = header_of k size bv ++ s' /\ (size < uint64_max)%N /\
  (k = rlp.KByte -> (byte_val bv < 128)%N /\ size = 0%N).
Proof.
  destruct s as [|b s]; [done|]. simpl.
  pose proof (byte_val_lt b) as Hb.
  destruct (N.ltb_spec (byte_val b) 128).
  { intros [= <- <- <- <-]. simpl. split; [done|]. split; [done|]. done. }
  destruct (N.ltb_spec (byte_val b) 184).
  { intros [= <- <- <- <-]. simpl. unfold rlp.puthead.
    destruct (N.ltb_spec (byte_val b - 128) 56); [|lia].
    replace (128 + (byte_val b - 128))%N with (byte_val b) by lia.
    rewrite to_byte_val. split; [done|]. split; [unfold uint64_max; simpl; lia|done]. }
  destruct (N.ltb_spec (byte_val b) 192).
  { destruct (rlp.readUint (byte_val b - 183) s) as [[sz s'']|] eqn:E; [|done].
    simpl. destruct (sz <? 56)%N eqn:Esz; [done|].
    intros [= <- <- <- <-]. simpl. unfold rlp.puthead. rewrite Esz.
    eapply long_header_inv in E as [E ?]; [|reflexivity|lia|lia|done].
    rewrite E. done. }
  destruct (N.ltb_spec (byte_val b) 248).
  { intros [= <- <- <- <-]. simpl. unfold rlp.puthead.
    destruct (N.ltb_spec (byte_val b - 192) 56); [|lia].
    replace (192 + (byte_val b - 192))%N with (byte_val b) by lia.
    rewrite to_byte_val. split; [done|]. split; [unfold uint64_max; simpl; lia|done]. }
  destruct (rlp.readUint (byte_val b - 247) s) as [[sz s'']|] eqn:E; [|done].
  simpl. destruct (sz <? 56)%N eqn:Esz; [done|].
  intros [= <- <- <- <-]. simpl. unfold rlp.puthead. rewrite Esz.
  eapply long_header_inv in E as [E ?]; [|reflexivity|lia|lia|done].
  rewrite E. done.
Qed.

Lemma Stream_Kind_ok (il : bool) (s s' : bytes) (k : rlp.Kind) (size : N) (bv : byte) :
  rlp.readKind s = Ok (k, size, bv, s') ->
  (size <= N.of_nat (length s'))%N ->
  rlp.Stream_Kind il s = Ok (k, size, bv, s').
Proof.
  intros Hk Hsz. unfold rlp.Stream_Kind.
  destruct s as [|b s]; [done|]. rewrite Hk. simpl.
  by destruct (N.ltb_spec (N.of_nat (length s')) size); [lia|].
Qed.

Lemma Stream_Kind_inv (il : bool) (s s' : bytes) (k : rlp.Kind) (size : N) (bv : byte) :
  rlp.Stream_Kind il s = Ok (k, size, bv, s') ->
  rlp.readKind s = Ok (k, size, bv, s') /\ (size <= N.of_nat (length s'))%N.
Proof.
  unfold rlp.Stream_Kind. destruct s as [|b s]; [by destruct il|].
  destruct (rlp.readKind (b :: s)) as [[[[k0 sz0] bv0] s0]|e]; [|done].
  simpl. destruct (N.ltb_spec (N.of_nat (length s0)) sz0); [by destruct il|].
  by intros [= <- <- <- <-].
Qed.

(** ** Round trips of the field decoders *)

(** The two forms of a string item: a single byte below [0x80] stands for
    itself, anything else follows a header. *)
Lemma encodeBytes_cases (b : bytes) :
  (exists x, b = [x] /\ (byte_val x < 128)%N /\ rlp.encodeBytes b = [x]) \/
  ((N.of_nat (length b) =? 1)%N && (byte_val (hd x00 b) <? 128)%N = false /\
   rlp.encodeBytes b = rlp.puthead 0x80 0xB7 (N.of_nat (length b)) ++ b).
Proof.
  destruct b as [|x [|y b]].
  - right. done.
  - unfold rlp.encodeBytes. destruct (N.ltb_spec (byte_val x) 128) as [Hx|Hx].
    + left. by exists x.
    + right. split; [|done]. simpl.
      by destruct (N.ltb_spec (byte_val x) 128); [lia|].
  - right. split; [|done]. simpl length.
    by destruct (N.eqb_spec (N.of_nat (S (S (length b)))) 1); [lia|].
Qed.

Lemma Stream_Bytes_encode (il : bool) (b rest : bytes) :
  (N.of_nat (length b) < uint64_max)%N ->
  rlp.Stream_Bytes il (rlp.encodeBytes b ++ rest) = Ok (b, rest).
Proof.
  intros Hlen. unfold rlp.Stream_Bytes.
  destruct (encodeBytes_cases b) as [(x & -> & Hx & ->)|[Hc ->]].
  - rewrite (Stream_Kind_ok il _ rest rlp.KByte 0%N x); [done| |lia].
    simpl. by destruct (N.ltb_spec (byte_val x) 128); [|lia].
  - rewrite <- app_assoc.
    rewrite (Stream_Kind_ok il _ (b ++ rest) rlp.KString (N.of_nat (length b)) x00);
      [|by apply readKind_puthead_string|rewrite length_app; lia].
    simpl. rewrite Nat2N.id, take_app_length, drop_app_length. by rewrite Hc.
Qed.

Lemma decodeByteArray_encode (n : nat) (il : bool) (b rest : bytes) :
  length b = n -> (N.of_nat n < uint64_max)%N ->
  rlp.decodeByteArray n il (rlp.encodeBytes b ++ rest) = Ok (b, rest).
Proof.
  intros <- Hlen. unfold rlp.decodeByteArray.
  destruct (encodeBytes_cases b) as [(x & -> & Hx & ->)|[Hc ->]].
  - rewrite (Stream_Kind_ok il _ rest rlp.KByte 0%N x); [done| |lia].
    simpl. by destruct (N.ltb_spec (byte_val x) 128); [|lia].
  - rewrite <- app_assoc.
    rewrite (Stream_Kind_ok il _ (b ++ rest) rlp.KString (N.of_nat (length b)) x00);
      [|by apply readKind_puthead_string|rewrite length_app; lia].
    simpl. rewrite N.ltb_irrefl, take_app_length, drop_app_length. by rewrite Hc.
Qed.

Lemma Stream_Uint64_encode (il : bool) (i : N) (rest : bytes) :
  (i < uint64_max)%N ->
  rlp.Stream_Uint64 il (rlp.encodeUint i ++ rest) = Ok (i, rest).
Proof.
  intros Hi. unfold rlp.Stream_Uint64, rlp.encodeUint.
  destruct (N.eqb_spec i 0) as [->|Hnz].
  - rewrite (Stream_Kind_ok il _ rest rlp.KString 0%N x00); [done|done|lia].
  - destruct (N.ltb_spec i 128) as [Hs|Hl].
    + rewrite (Stream_Kind_ok il _ rest rlp.KByte 0%N (to_byte i)); [| |lia].
      * simpl. rewrite byte_val_to_byte_small by lia.
        by destruct (N.eqb_spec i 0).
      * simpl. rewrite byte_val_to_byte_small by lia.
        by destruct (N.ltb_spec i 128); [|lia].
    + pose proof (intsize_range i Hi) as Hr. rewrite <- length_putint in Hr.
      set (len := N.of_nat (length (rlp.putint i))).
      rewrite (Stream_Kind_ok il _ (rlp.putint i ++ rest) rlp.KString len x00).
      * simpl. destruct (N.ltb_spec 8 len); [lia|].
        subst len. rewrite readUint_putint by lia.
        destruct (N.ltb_spec i 128); [lia|]. by rewrite andb_false_r.
      * simpl. rewrite byte_val_to_byte_small by lia.
        destruct (N.ltb_spec (128 + len) 128); [lia|].
        destruct (N.ltb_spec (128 + len) 184); [|lia].
        by replace (128 + len - 128)%N with len by lia.
      * rewrite length_app. lia.
Qed.

(** ** Only canonical items decode *)

Lemma string_item_inv (size : N) (s0 : bytes) (n : nat) :
  n = N.to_nat size ->
  (size <= N.of_nat (length s0))%N ->
  (size =? 1)%N && (byte_val (hd x00 (take n s0)) <? 128)%N = false ->
  rlp.puthead 0x80 0xB7 size ++ s0 = rlp.encodeBytes (take n s0) ++ drop n s0 /\
  length (take n s0) = n.
Proof.
  intros -> Hsz Hc.
  assert (Hlen : length (take (N.to_nat size) s0) = N.to_nat size)
    by (rewrite length_take; lia).
  split; [|done].
  destruct (encodeBytes_cases (take (N.to_nat size) s0)) as [(x & Hx & Hlt & _)|[_ ->]].
  - exfalso. rewrite Hx in Hc, Hlen. simpl in Hc, Hlen.
    destruct (N.eqb_spec size 1); [|lia].
    by destruct (N.ltb_spec (byte_val x) 128); [|lia].
  - rewrite Hlen, N2Nat.id, <- app_assoc, take_drop. done.
Qed.

Lemma Stream_Bytes_inv (il : bool) (s s' b : bytes) :
  rlp.Stream_Bytes il s = Ok (b, s') ->
  s = rlp.encodeBytes b ++ s' /\ (N.of_nat (length b) < uint64_max)%N.
Proof.
  unfold rlp.Stream_Bytes.
  destruct (rlp.Stream_Kind il s) as [[[[k size] bv] s0]|e] eqn:E; [|done].
  apply Stream_Kind_inv in E as [E Hsz].
  apply readKind_inv in E as (-> & Hmax & Hbyte).
  simpl. destruct k; simpl header_of.
  - intros [= <- <-]. destruct (Hbyte eq_refl) as [Hlt _].
    split; [|unfold uint64_max; simpl; lia].
    unfold rlp.encodeBytes.
    by destruct (N.ltb_spec (byte_val bv) 128); [|lia].
  - destruct ((size =? 1)%N && _) eqn:Hc; [done|].
    intros [= <- <-].
    destruct (string_item_inv size s0 (N.to_nat size) eq_refl Hsz Hc) as [-> Hlen].
    split; [done|]. rewrite Hlen. lia.
  - done.
Qed.

Lemma decodeByteArray_inv (n : nat) (il : bool) (s s' b : bytes) :
  rlp.decodeByteArray n il s = Ok (b, s') ->
  s = rlp.encodeBytes b ++ s' /\ length b = n /\ (N.of_nat n < uint64_max)%N.
Proof.
  unfold rlp.decodeByteArray.
  destruct (rlp.Stream_Kind il s) as [[[[k size] bv] s0]|e] eqn:E; [|done].
  apply Stream_Kind_inv in E as [E Hsz].
  apply readKind_inv in E as (-> & Hmax & Hbyte).
  simpl. destruct k; simpl header_of.
  - destruct (Nat.eqb_spec n 0); [done|].
    destruct (Nat.ltb_spec 1 n); [done|].
    intros [= <- <-]. destruct (Hbyte eq_refl) as [Hlt _].
    split; [|split; [simpl; lia|unfold uint64_max; lia]].
    unfold rlp.encodeBytes.
    by destruct (N.ltb_spec (byte_val bv) 128); [|lia].
  - destruct (N.ltb_spec (N.of_nat n) size); [done|].
    destruct (N.ltb_spec size (N.of_nat n)); [done|].
    destruct ((size =? 1)%N && _) eqn:Hc; [done|].
    intros [= <- <-].
    destruct (string_item_inv size s0 n ltac:(lia) Hsz Hc) as [-> Hlen].
    split; [done|]. split; [done|]. lia.
  - done.
Qed.

Lemma Stream_Uint64_inv (il : bool) (s s' : bytes) (i : N) :
  rlp.Stream_Uint64 il s = Ok (i, s') ->
  s = rlp.encodeUint i ++ s' /\ (i < uint64_max)%N.
Proof.
  unfold rlp.Stream_Uint64.
  destruct (rlp.Stream_Kind il s) as [[[[k size] bv] s0]|e] eqn:E; [|done].
  apply Stream_Kind_inv in E as [E Hsz].
  apply readKind_inv in E as (-> & Hmax & Hbyte).
  simpl. destruct k; simpl header_of.
  - destruct (N.eqb_spec (byte_val bv) 0) as [|Hnz]; [done|].
    intros [= <- <-]. destruct (Hbyte eq_refl) as [Hlt _].
    split; [|unfold uint64_max; simpl; lia].
    unfold rlp.encodeUint.
    destruct (N.eqb_spec (byte_val bv) 0); [done|].
    destruct (N.ltb_spec (byte_val bv) 128); [|lia].
    by rewrite to_byte_val.
  - destruct (N.ltb_spec 8 size) as [|Hle]; [done|].
    destruct (rlp.readUint size s0) as [[v s1]|e] eqn:Er; [|by destruct e].
    destruct ((0 <? size)%N && (v <? 128)%N) eqn:Hc; [done|].
    intros [= <- <-].
    destruct (N.eqb_spec size 0) as [->|Hnz].
    + unfold rlp.readUint in Er. simpl in Er. injection Er as <- <-.
      split; [done|]. unfold uint64_max. simpl. lia.
    + apply readUint_inv in Er as (-> & Hlen & Hv); [|lia].
      split; [|lia].
      destruct (N.ltb_spec 0 size); [|lia]. simpl in Hc.
      unfold rlp.encodeUint, rlp.puthead.
      destruct (N.eqb_spec v 0); [lia|]. rewrite Hc.
      destruct (N.ltb_spec size 56); [|lia].
      by rewrite Hlen.
  - done.
Qed.

(** ** Structs *)

Lemma decodeValue_encode (t : rlp.typ) (il : bool) (v : rlp.value) (rest : bytes) :
  fits t v -> rlp.decodeValue t il (rlp.encode v ++ rest) = Ok (v, rest).
Proof.
  destruct t as [n| |], v as [b|i|l]; simpl; try done.
  - intros [Hn Hmax]. by rewrite decodeByteArray_encode.
  - intros Hmax. by rewrite Stream_Bytes_encode.
  - intros Hmax. by rewrite Stream_Uint64_encode.
Qed.

Lemma decodeValue_inv (t : rlp.typ) (il : bool) (s s' : bytes) (v : rlp.value) :
  rlp.decodeValue t il s = Ok (v, s') -> s = rlp.encode v ++ s' /\ fits t v.
Proof.
  destruct t as [n| |]; simpl.
  - destruct (rlp.decodeByteArray n il s) as [[b s0]|e] eqn:E; [|done].
    intros [= <- <-]. apply decodeByteArray_inv in E as (-> & ? & ?). done.
  - destruct (rlp.Stream_Bytes il s) as [[b s0]|e] eqn:E; [|done].
    intros [= <- <-]. apply Stream_Bytes_inv in E as (-> & ?). done.
  - destruct (rlp.Stream_Uint64 il s) as [[i s0]|e] eqn:E; [|done].
    intros [= <- <-]. apply Stream_Uint64_inv in E as (-> & ?). done.
Qed.

Lemma decodeFields_encode (ts : list rlp.typ) (vs : list rlp.value) (rest : bytes) :
  Forall2 fits ts vs ->
  rlp.decodeFields ts (concat (map rlp.encode vs) ++ rest) = Ok (vs, rest).
Proof.
  induction 1 as [|t v ts vs Hv _ IH]; [done|].
  change (concat (map rlp.encode (v :: vs)))
    with (rlp.encode v ++ concat (map rlp.encode vs)).
  rewrite <- app_assoc. cbn [rlp.decodeFields].
  rewrite decodeValue_encode by done. by rewrite IH.
Qed.

Lemma decodeFields_inv (ts : list rlp.typ) (s s' : bytes) (vs : list rlp.value) :
  rlp.decodeFields ts s = Ok (vs, s') ->
  s = concat (map rlp.encode vs) ++ s' /\ Forall2 fits ts vs.
Proof.
  revert s vs. induction ts as [|t ts IH]; intros s vs; simpl.
  - intros [= <- <-]. by split; [|constructor].
  - destruct (rlp.decodeValue t true s) as [[v s0]|e] eqn:E; [|by destruct e].
    destruct (rlp.decodeFields ts s0) as [[vs0 s1]|e] eqn:E'; [|done].
    simpl. intros [= <- <-].
    apply decodeValue_inv in E as [-> Hv]. apply IH in E' as [-> Hvs].
    split; [|by constructor].
    change (concat (map rlp.encode (v :: vs0)))
      with (rlp.encode v ++ concat (map rlp.encode vs0)).
    by rewrite <- app_assoc.
Qed.

Lemma decodeStruct_encode (ts : list rlp.typ) (vs : list rlp.value) (after : bytes) :
  Forall2 fits ts vs ->
  (N.of_nat (length (concat (map rlp.encode vs))) < uint64_max)%N ->
  rlp.decodeStruct ts (rlp.encode (rlp.VList vs) ++ after) = Ok (vs, after).
Proof.
  intros Hvs Hmax. unfold rlp.decodeStruct, rlp.Stream_List.
  change (rlp.encode (rlp.VList vs)) with
    (rlp.puthead 0xC0 0xF7 (N.of_nat (length (concat (map rlp.encode vs))))
       ++ concat (map rlp.encode vs)).
  set (body := concat (map rlp.encode vs)) in *.
  rewrite <- app_assoc.
  rewrite (Stream_Kind_ok false _ (body ++ after) rlp.KList (N.of_nat (length body)) x00);
    [|by apply readKind_puthead_list|rewrite length_app; lia].
  simpl. rewrite Nat2N.id, take_app_length, drop_app_length.
  rewrite <- (app_nil_r body). subst body.
  by rewrite decodeFields_encode.
Qed.

Lemma decodeStruct_inv (ts : list rlp.typ) (s after : bytes) (vs : list rlp.value) :
  rlp.decodeStruct ts s = Ok (vs, after) ->
  s = rlp.encode (rlp.VList vs) ++ after /\ Forall2 fits ts vs /\
  (N.of_nat (length (concat (map rlp.encode vs))) < uint64_max)%N.
Proof.
  unfold rlp.decodeStruct, rlp.Stream_List.
  destruct (rlp.Stream_Kind false s) as [[[[k size] bv] s0]|e] eqn:E; [|done].
  apply Stream_Kind_inv in E as [E Hsz].
  apply readKind_inv in E as (-> & Hmax & _).
  simpl. destruct k; try done. simpl.
  destruct (rlp.decodeFields ts (take (N.to_nat size) s0)) as [[vs0 b1]|e] eqn:E; [|done].
  simpl. destruct b1 as [|? ?]; [|done]. simpl. intros [= <- <-].
  apply decodeFields_inv in E as [E Hvs]. rewrite app_nil_r in E.
  assert (Hlen : length (concat (map rlp.encode vs0)) = N.to_nat size)
    by (rewrite <- E, length_take; lia).
  split; [|split; [done|lia]].
  change (rlp.encode (rlp.VList vs0)) with
    (rlp.puthead 0xC0 0xF7 (N.of_nat (length (concat (map rlp.encode vs0))))
       ++ concat (map rlp.encode vs0)).
  rewrite Hlen, N2Nat.id, <- app_assoc, <- E, take_drop. done.
Qed.

(** ** The envelope *)

Lemma length_encodeBytes (b : bytes) : length b <= length (rlp.encodeBytes b).
Proof.
  destruct (encodeBytes_cases b) as [(x & -> & _ & ->)|[_ ->]]; [done|].
  rewrite length_app. lia.
Qed.

Lemma fields_fits (v : message) : message_ok v -> Forall2 fits msg_struct (fields v).
Proof.
  intros (Hh & Ha & Hc & Hb). unfold body, fields in Hb. simpl in Hb.
  rewrite !length_app in Hb.
  pose proof (length_encodeBytes (Msg v)).
  pose proof (length_encodeBytes (Signature v)).
  pose proof (length_encodeBytes (CommittedSeal v)).
  repeat constructor; simpl; try done; try lia.
Qed.

Lemma of_fields_fields (v : message) : of_fields (fields v) = Some v.
Proof. by destruct v. Qed.

Lemma of_fields_fits (vs : list rlp.value) :
  Forall2 fits msg_struct vs -> exists v, of_fields vs = Some v /\ fields v = vs.
Proof.
  unfold msg_struct. intros Hvs.
  repeat match goal with
  | H : Forall2 _ (_ :: _) _ |- _ => inversion_clear H
  | H : Forall2 _ [] _ |- _ => inversion_clear H
  | H : fits _ ?v |- _ => is_var v; destruct v; try done
  end.
  eexists. split; reflexivity.
Qed.

Lemma fits_message_ok (v : message) :
  Forall2 fits msg_struct (fields v) ->
  (N.of_nat (length (body v)) < uint64_max)%N -> message_ok v.
Proof.
  unfold msg_struct, fields. intros Hvs Hb.
  repeat match goal with
  | H : Forall2 _ (_ :: _) _ |- _ => inversion_clear H
  end.
  simpl in *. unfold message_ok. tauto.
Qed.

(** [s.Decode(&msg)] inverts the wire form, whatever follows it. *)
Lemma decode_msg_wire (v : message) (after : bytes) :
  message_ok v -> decode_msg (wire v ++ after) = Ok (v, after).
Proof.
  intros Hv. unfold decode_msg, wire.
  rewrite decodeStruct_encode; [|by apply fields_fits|apply Hv].
  unfold mbind, result_bind. by rewrite of_fields_fields.
Qed.

(** [s.Decode(&msg)] succeeds on wire forms only. *)
Lemma decode_msg_inv (s s' : bytes) (v : message) :
  decode_msg s = Ok (v, s') -> s = wire v ++ s' /\ message_ok v.
Proof.
  unfold decode_msg.
  destruct (rlp.decodeStruct msg_struct s) as [[vs s0]|e] eqn:E; [|done].
  apply decodeStruct_inv in E as (-> & Hvs & Hb).
  destruct (of_fields_fits vs Hvs) as (v0 & Hv0 & <-).
  unfold mbind, result_bind. rewrite Hv0. intros [= <- <-].
  split; [done|]. by apply fits_message_ok.
Qed.

(** ** The decoder reports decode errors only *)

Ltac err_cases :=
  repeat match goal with
  | |- context [match ?x with _ => _ end] => destruct x eqn:?; simpl in *
  | |- Err _ = Err _ -> _ => intros [= <-]
  | |- Ok _ = Err _ -> _ => intros [=]
  end; try done.

Lemma readUint_err (size : N) (s : bytes) (e : error) :
  rlp.readUint size s = Err e -> e = ErrUnexpectedEOF \/ e = ErrCanonSize.
Proof. unfold rlp.readUint. err_cases; auto. Qed.

Lemma readKind_err (s : bytes) (e : error) :
  rlp.readKind s = Err e -> DecodeError e = true.
Proof.
  unfold rlp.readKind. destruct s as [|b s]; [by intros [= <-]|].
  repeat match goal with
  | |- context [if ?c then _ else _] => destruct c
  end; try done.
  all: destruct (rlp.readUint _ s) as [[sz s']|e'] eqn:E; simpl;
    [destruct (sz <? 56)%N; [by intros [= <-]|done]
    |intros [= <-]; by destruct (readUint_err _ _ _ E) as [->| ->]].
Qed.

Lemma Stream_Kind_err (il : bool) (s : bytes) (e : error) :
  rlp.Stream_Kind il s = Err e -> DecodeError e = true.
Proof.
  unfold rlp.Stream_Kind. destruct s as [|b s]; [intros [= <-]; by destruct il|].
  destruct (rlp.readKind (b :: s)) as [[[[k sz] bv] s']|e'] eqn:E; simpl.
  - destruct (_ <? _)%N; [intros [= <-]; by destruct il|done].
  - intros [= <-]. by eapply readKind_err.
Qed.

Lemma decodeValue_err (t : rlp.typ) (il : bool) (s : bytes) (e : error) :
  rlp.decodeValue t il s = Err e -> DecodeError e = true.
Proof.
  destruct t as [n| |]; simpl.
  - unfold rlp.decodeByteArray.
    destruct (rlp.Stream_Kind il s) as [[[[k sz] bv] s']|e'] eqn:E; simpl;
      [|intros [= <-]; by eapply Stream_Kind_err].
    err_cases.
  - unfold rlp.Stream_Bytes.
    destruct (rlp.Stream_Kind il s) as [[[[k sz] bv] s']|e'] eqn:E; simpl;
      [|intros [= <-]; by eapply Stream_Kind_err].
    err_cases.
  - unfold rlp.Stream_Uint64.
    destruct (rlp.Stream_Kind il s) as [[[[k sz] bv] s']|e'] eqn:E; simpl;
      [|intros [= <-]; by eapply Stream_Kind_err].
    destruct k; simpl; [err_cases| |by intros [= <-]].
    destruct (8 <? sz)%N; [by intros [= <-]|].
    destruct (rlp.readUint sz s') as [[v s'']|e'] eqn:Er.
    + err_cases.
    + destruct (readUint_err _ _ _ Er) as [->| ->]; by intros [= <-].
Qed.

Lemma decodeFields_err (ts : list rlp.typ) (s : bytes) (e : error) :
  rlp.decodeFields ts s = Err e -> DecodeError e = true.
Proof.
  revert s. induction ts as [|t ts IH]; intros s; simpl; [done|].
  destruct (rlp.decodeValue t true s) as [[v s']|e'] eqn:E.
  - destruct (rlp.decodeFields ts s') as [[vs s'']|e'] eqn:E'; simpl; [done|].
    intros [= <-]. by eapply IH.
  - apply decodeValue_err in E. destruct e'; by intros [= <-].
Qed.

Lemma decodeStruct_err (ts : list rlp.typ) (s : bytes) (e : error) :
  rlp.decodeStruct ts s = Err e -> DecodeError e = true.
Proof.
  unfold rlp.decodeStruct, rlp.Stream_List.
  destruct (rlp.Stream_Kind false s) as [[[[k sz] bv] s']|e'] eqn:E; simpl;
    [|intros [= <-]; by eapply Stream_Kind_err].
  destruct k; simpl; try by intros [= <-].
  destruct (rlp.decodeFields ts (take (N.to_nat sz) s')) as [[vs b1]|e'] eqn:E'; simpl.
  - destruct b1; simpl; [done|by intros [= <-]].
  - intros [= <-]. by eapply decodeFields_err.
Qed.

Lemma decode_msg_err (s : bytes) (e : error) :
  decode_msg s = Err e -> DecodeError e = true.
Proof.
  unfold decode_msg.
  destruct (rlp.decodeStruct msg_struct s) as [[vs s']|e'] eqn:E; simpl.
  - destruct (of_fields vs); [done|by intros [= <-]].
  - intros [= <-]. by eapply decodeStruct_err.
Qed.

(** ** Runs of the envelope's methods *)

Lemma load_run (h : heap) (p : loc) (v : message) :
  h !! p = Some v -> load p h = Some (v, h).
Proof. intros Hp. unfold load. by rewrite Hp. Qed.

Lemma store_run (h : heap) (p : loc) (v0 v : message) :
  h !! p = Some v0 -> store p v h = Some (tt, <[p := v]> h).
Proof. intros Hp. unfold store. by rewrite Hp. Qed.

Lemma EncodeRLP_run (h : heap) (p : loc) (v : message) :
  h !! p = Some v -> EncodeRLP p h = Some (Ok (wire v), h).
Proof.
  intros Hp. unfold EncodeRLP, mbind, M_bind. by rewrite (load_run h p v).
Qed.

Lemma PayloadNoSig_run (h : heap) (p : loc) (v : message) :
  h !! p = Some v ->
  PayloadNoSig p h = Some (Ok (wire (unsigned v)), h ++ [unsigned v]).
Proof.
  intros Hp. unfold PayloadNoSig, mbind, M_bind.
  rewrite (load_run h p v Hp). unfold new.
  unfold rlp.EncodeToBytes, rlp.EncodeRLP, message_Encoder.
  by rewrite (EncodeRLP_run _ _ (unsigned v)); [|apply list_lookup_middle].
Qed.

Lemma DecodeRLP_run (h : heap) (p : loc) (v0 : message) (s : bytes) :
  h !! p = Some v0 ->
  DecodeRLP p s h =
    match decode_msg s with
    | Err e => Some ((s, Some e), h)
    | Ok (v, s') => Some ((s', None), <[p := v]> h)
    end.
Proof.
  intros Hp. unfold DecodeRLP.
  destruct (decode_msg s) as [[v s']|e]; [|done].
  unfold mbind, M_bind. by rewrite (store_run h p v0 v Hp).
Qed.

Lemma DecodeBytes_run (h : heap) (p : loc) (v0 : message) (b : bytes) :
  h !! p = Some v0 ->
  rlp.DecodeBytes b p h =
    match decode_msg b with
    | Err e => Some (Some e, h)
    | Ok (v, s') =>
        Some (match s' with [] => None | _ => Some ErrMoreThanOneValue end,
              <[p := v]> h)
    end.
Proof.
  intros Hp. unfold rlp.DecodeBytes, rlp.DecodeRLP, message_Decoder, mbind, M_bind.
  rewrite (DecodeRLP_run h p v0 b Hp).
  destruct (decode_msg b) as [[v [|x s']]|e]; done.
Qed.

Lemma lookup_stored (h : heap) (p : loc) (v0 v : message) :
  h !! p = Some v0 -> <[p := v]> h !! p = Some v.
Proof. intros Hp. apply list_lookup_insert_eq. by eapply lookup_lt_Some. Qed.

(** The authenticated path after a successful decode. *)
Lemma FromPayload_run (h : heap) (p : loc) (v0 : message) (b : bytes) (f : validator) :
  h !! p = Some v0 ->
  FromPayload p b (Some f) h =
    match decode_msg b with
    | Err e => Some (Some e, h)
    | Ok (v, _ :: _) => Some (Some ErrMoreThanOneValue, <[p := v]> h)
    | Ok (v, []) =>
        Some (match f (wire (unsigned v)) (Signature v) with
              | Refused e => Some (errVerify e)
              | Signer a =>
                  if negb (bytes_Equal a (Address v)) then Some errInvalidSigner
                  else None
              end,
              <[p := v]> h ++ [unsigned v])
    end.
Proof.
  intros Hp. unfold FromPayload. unfold mbind at 1. unfold M_bind at 1.
  rewrite (DecodeBytes_run h p v0 b Hp).
  destruct (decode_msg b) as [[v [|x s']]|e]; try done.
  pose proof (lookup_stored h p v0 v Hp) as Hv.
  unfold mbind, M_bind. rewrite (PayloadNoSig_run _ _ v Hv).
  rewrite (load_run _ p v) by (by apply lookup_app_l_Some).
  destruct (f _ _) as [a|e]; [|done].
  by destruct (negb _).
Qed.

Lemma FromPayload_nil_run (h : heap) (p : loc) (b : bytes) :
  FromPayload p b None h = rlp.DecodeBytes b p h.
Proof.
  unfold FromPayload, mbind, M_bind.
  destruct (rlp.DecodeBytes b p h) as [[[e|] h']|]; done.
Qed.

(** ** The model on known inputs *)

(** The examples of the RLP format: the string dog, the list of cat and
    dog, the empty string and list, the integers 0, 15 and 1024, and a
    string of 56 bytes, the shortest with a long header. *)
Example encode_vectors :
  rlp.encode (rlp.VBytes [x64; x6f; x67]) = [x83; x64; x6f; x67] /\
  rlp.encode (rlp.VList [rlp.VBytes [x63; x61; x74]; rlp.VBytes [x64; x6f; x67]])
    = [xc8; x83; x63; x61; x74; x83; x64; x6f; x67] /\
  rlp.encode (rlp.VBytes []) = [x80] /\
  rlp.encode (rlp.VList []) = [xc0] /\
  rlp.encode (rlp.VUint 0) = [x80] /\
  rlp.encode (rlp.VUint 15) = [x0f] /\
  rlp.encode (rlp.VUint 1024) = [x82; x04; x00] /\
  rlp.encode (rlp.VBytes (replicate 56 x61)) = xb8 :: x38 :: replicate 56 x61.
Proof. repeat split. Qed.

(** Inputs that the decoder refuses: a single byte behind a header, an
    integer with a leading zero, the integer zero as a byte, a long header
    for a short size, a string longer than the input, a list with an
    element too many and a list with one too few. *)
Example decode_refusals :
  rlp.Stream_Bytes false [x81; x05] = Err ErrCanonSize /\
  rlp.Stream_Uint64 false [x82; x00; x01] = Err ErrCanonInt /\
  rlp.Stream_Uint64 false [x00] = Err ErrCanonInt /\
  rlp.Stream_Bytes false [xb8; x01; xff] = Err ErrCanonSize /\
  rlp.Stream_Bytes false [x83; x64] = Err ErrValueTooLarge /\
  rlp.decodeStruct [rlp.TUint64] [xc2; x01; x02] = Err errNotAtEOL /\
  rlp.decodeStruct [rlp.TUint64; rlp.TUint64] [xc1; x01]
    = Err (decodeError "too few elements").
Proof. repeat split. Qed.

(** The wire form of [sample]: a list of 59 bytes. *)
Example wire_sample :
  wire sample =
    [xf8; x3b; xa0] ++ replicate 32 x11 ++ [x01; x05; x94] ++ replicate 20 x22
      ++ [x07; x81; xff].
Proof. reflexivity. Qed.

(** [FromPayload] on the wire form of [sample]: accepted without a
    callback and with one that recovers the sender, refused with the
    callback's error when the callback fails, and refused when cut short. *)
Example FromPayload_sample_runs :
  returns (FromPayload 0 (wire sample) None) [blank] = Some None /\
  returns (FromPayload 0 (wire sample) (Some sample_signer)) [blank] = Some None /\
  returns (FromPayload 0 (wire sample) (Some refusing)) [blank]
    = Some (Some (errVerify "invalid signature")) /\
  returns (FromPayload 0 (take 30 (wire sample)) (Some sample_signer)) [blank]
    = Some (Some ErrValueTooLarge).
Proof. repeat split. Qed.

(** * The claims *)

(** ** Signing payload *)

(** C1, as stated, fails: two envelopes that differ in [CommittedSeal]
    alone have different [PayloadNoSig] outputs, because the fresh
    envelope copies [m.CommittedSeal] and empties [Signature]. *)
Lemma C1_PayloadNoSig_varies_with_CommittedSeal :
  ~ (forall (h1 h2 : heap) (p1 p2 : loc) (v1 v2 : message),
       h1 !! p1 = Some v1 -> h2 !! p2 = Some v2 -> same_but_seal v1 v2 ->
       returns (PayloadNoSig p1) h1 = returns (PayloadNoSig p2) h2).
Proof.
  intros Hclaim.
  specialize (Hclaim [sample] [sample_other_seal] 0 0 sample sample_other_seal
                eq_refl eq_refl).
  assert (Hsame : same_but_seal sample sample_other_seal) by (by repeat split).
  specialize (Hclaim Hsame). vm_compute in Hclaim. discriminate Hclaim.
Qed.

(** C1, amended: for every two envelopes that are identical except for
    their [Signature] field, [PayloadNoSig] produces identical output
    bytes; the payload is the encoding of the envelope with [Signature]
    empty and [CommittedSeal] as it is. *)
Theorem C1_PayloadNoSig_ignores_Signature
    (h1 h2 : heap) (p1 p2 : loc) (v1 v2 : message) :
  h1 !! p1 = Some v1 -> h2 !! p2 = Some v2 -> same_but_signature v1 v2 ->
  returns (PayloadNoSig p1) h1 = returns (PayloadNoSig p2) h2 /\
  returns (PayloadNoSig p1) h1 =
    Some (Ok (wire {| Hash := Hash v1; Code := Code v1; Msg := Msg v1;
                      Address := Address v1; Signature := [];
                      CommittedSeal := CommittedSeal v1 |})).
Proof.
  intros H1 H2 (Hh & Hc & Hm & Ha & Hs).
  unfold returns. rewrite (PayloadNoSig_run h1 p1 v1 H1), (PayloadNoSig_run h2 p2 v2 H2).
  simpl. split; [|done].
  unfold unsigned. by rewrite Hh, Hc, Hm, Ha, Hs.
Qed.

Lemma C1_PayloadNoSig_ignores_Signature_witness :
  returns (PayloadNoSig 0) [sample] = returns (PayloadNoSig 1) [blank; sample_other_signature].
Proof.
  apply (C1_PayloadNoSig_ignores_Signature
           [sample] [blank; sample_other_signature] 0 1 sample sample_other_signature).
  - reflexivity.
  - reflexivity.
  - repeat split.
Defined.

(** C8: [PayloadNoSig] leaves every field of its receiver as it was; it
    allocates one fresh envelope and changes no envelope that existed. *)
Theorem C8_PayloadNoSig_frame (h : heap) (p : loc) (v : message) :
  h !! p = Some v ->
  exists (r : result bytes) (h' : heap),
    PayloadNoSig p h = Some (r, h') /\
    h' !! p = Some v /\
    (forall (q : loc) (w : message), h !! q = Some w -> h' !! q = Some w).
Proof.
  intros Hp. eexists _, _. split; [by apply PayloadNoSig_run|].
  split; [by apply lookup_app_l_Some|].
  intros q w Hq. by apply lookup_app_l_Some.
Qed.

Lemma C8_PayloadNoSig_frame_witness :
  exists (r : result bytes) (h' : heap),
    PayloadNoSig 1 [blank; sample] = Some (r, h') /\
    h' !! 1 = Some sample /\
    (forall (q : loc) (w : message), [blank; sample] !! q = Some w -> h' !! q = Some w).
Proof. apply (C8_PayloadNoSig_frame [blank; sample] 1 sample). reflexivity. Defined.

(** ** Encoding *)

(** C6: [EncodeRLP] writes one list whose body is the six fields in the
    order digest, kind, payload, sender, signature, committedSeal; equal
    envelopes encode to equal bytes, wherever they are stored. *)
Theorem C6_EncodeRLP_six_fields_in_order (h : heap) (p : loc) (v : message) :
  h !! p = Some v ->
  (let payload :=
     rlp.encodeBytes (Hash v) ++ rlp.encodeUint (Code v) ++
     rlp.encodeBytes (Msg v) ++ rlp.encodeBytes (Address v) ++
     rlp.encodeBytes (Signature v) ++ rlp.encodeBytes (CommittedSeal v) in
   EncodeRLP p h =
     Some (Ok (rlp.puthead 0xC0 0xF7 (N.of_nat (length payload)) ++ payload), h)) /\
  (forall (h' : heap) (p' : loc),
     h' !! p' = Some v -> returns (EncodeRLP p') h' = returns (EncodeRLP p) h).
Proof.
  intros Hp. split.
  - rewrite (EncodeRLP_run h p v Hp). unfold wire. simpl. by rewrite app_nil_r.
  - intros h' p' Hp'. unfold returns.
    by rewrite (EncodeRLP_run h p v Hp), (EncodeRLP_run h' p' v Hp').
Qed.

Lemma C6_EncodeRLP_six_fields_in_order_witness :
  returns (EncodeRLP 0) [sample] = returns (EncodeRLP 1) [blank; sample].
Proof.
  apply (C6_EncodeRLP_six_fields_in_order [blank; sample] 1 sample eq_refl).
  reflexivity.
Defined.

(** C2: for every valid envelope, decoding the bytes that [EncodeRLP]
    produced yields that envelope, field for field, and no error. *)
Theorem C2_decode_encode_round_trip (h : heap) (q p : loc) (v v0 : message) :
  message_ok v -> h !! q = Some v -> h !! p = Some v0 ->
  exists b : bytes,
    EncodeRLP q h = Some (Ok b, h) /\
    rlp.DecodeBytes b p h = Some (None, <[p := v]> h) /\
    <[p := v]> h !! p = Some v.
Proof.
  intros Hv Hq Hp. exists (wire v).
  split; [by apply EncodeRLP_run|].
  split; [|by eapply lookup_stored].
  rewrite (DecodeBytes_run h p v0 _ Hp).
  rewrite <- (app_nil_r (wire v)). by rewrite decode_msg_wire.
Qed.

Lemma C2_decode_encode_round_trip_witness :
  exists b : bytes,
    EncodeRLP 0 [sample; blank] = Some (Ok b, [sample; blank]) /\
    rlp.DecodeBytes b 1 [sample; blank] = Some (None, [sample; sample]) /\
    [sample; sample] !! 1 = Some sample.
Proof.
  apply (C2_decode_encode_round_trip [sample; blank] 0 1 sample blank).
  - repeat split.
  - reflexivity.
  - reflexivity.
Defined.

(** ** Decoding *)

Lemma FromPayload_decode_error (h h' : heap) (p : loc) (b : bytes) (e : error)
    (validateFn : option validator) :
  rlp.DecodeBytes b p h = Some (Some e, h') ->
  FromPayload p b validateFn h = Some (Some e, h').
Proof. intros Hd. unfold FromPayload, mbind, M_bind. by rewrite Hd. Qed.

(** Every input is the wire form of a valid envelope, which decodes to
    it, or is rejected. *)
Lemma decode_outcome (h : heap) (p : loc) (v0 : message) (b : bytes) :
  h !! p = Some v0 ->
  (exists v, message_ok v /\ b = wire v /\
             rlp.DecodeBytes b p h = Some (None, <[p := v]> h)) \/
  rejects h p b.
Proof.
  intros Hp. pose proof (DecodeBytes_run h p v0 b Hp) as Hrun.
  destruct (decode_msg b) as [[v [|x s']]|e] eqn:E.
  - apply decode_msg_inv in E as [-> Hv]. rewrite app_nil_r in *.
    left. by exists v.
  - apply decode_msg_inv in E as [-> Hv]. right.
    exists ErrMoreThanOneValue, (<[p := v]> h).
    split; [done|]. split; [done|].
    split; [intros; by apply FromPayload_decode_error|].
    right. by exists v, (x :: s').
  - right. exists e, h.
    split; [done|]. split; [by eapply decode_msg_err|].
    split; [intros; by apply FromPayload_decode_error|by left].
Qed.

(** C7: an input that is not the wire form of a valid envelope makes the
    decode step fail with a decode error; so does every truncation of a
    wire form and every wire form with bytes after it.  A partly filled
    envelope never results: the receiver is untouched when [DecodeRLP]
    fails, and holds a whole envelope in the one case where the error is
    found after it ([ErrMoreThanOneValue]). *)
Theorem C7_malformed_input_is_rejected (h : heap) (p : loc) (v0 : message) :
  h !! p = Some v0 ->
  (forall b : bytes,
     (forall v, message_ok v -> b <> wire v) -> rejects h p b) /\
  (forall (v : message) (n : nat),
     message_ok v -> n < length (wire v) -> rejects h p (take n (wire v))) /\
  (forall (v : message) (rest : bytes),
     message_ok v -> rest <> [] -> rejects h p (wire v ++ rest)) /\
  (forall (s s' : rlp.Stream) (e : error) (h' : heap),
     DecodeRLP p s h = Some ((s', Some e), h') -> DecodeError e = true /\ h' = h).
Proof.
  intros Hp.
  assert (Hmal : forall b : bytes,
            (forall v, message_ok v -> b <> wire v) -> rejects h p b).
  { intros b Hb. destruct (decode_outcome h p v0 b Hp) as [(v & Hv & -> & _)|Hr]; [|done].
    by destruct (Hb v Hv). }
  split; [exact Hmal|]. split; [|split].
  - intros v n Hv Hn. apply Hmal. intros v' Hv' Heq.
    pose proof (decode_msg_wire v [] Hv) as Hd.
    rewrite app_nil_r, <- (take_drop n (wire v)), Heq in Hd.
    rewrite (decode_msg_wire v' _ Hv') in Hd. injection Hd as _ Hdrop.
    apply (f_equal length) in Hdrop. rewrite length_drop in Hdrop. simpl in Hdrop. lia.
  - intros v rest Hv Hrest. apply Hmal. intros v' Hv' Heq.
    pose proof (decode_msg_wire v rest Hv) as Hd.
    rewrite Heq, <- (app_nil_r (wire v')), (decode_msg_wire v' _ Hv') in Hd.
    injection Hd as _ Hnil. by destruct Hrest.
  - intros s s' e h'. rewrite (DecodeRLP_run h p v0 s Hp).
    destruct (decode_msg s) as [[v s'']|e'] eqn:E; [done|].
    intros [= <- <- <-]. split; [by eapply decode_msg_err|done].
Qed.

Lemma C7_malformed_input_is_rejected_witness :
  rejects [blank] 0 (take 40 (wire sample)) /\
  rejects [blank] 0 (wire sample ++ [x00]).
Proof.
  pose proof (C7_malformed_input_is_rejected [blank] 0 blank eq_refl)
    as (_ & Htrunc & Hextra & _).
  split.
  - apply (Htrunc sample 40); [repeat split|vm_compute; lia].
  - apply (Hextra sample [x00]); [repeat split|discriminate].
Defined.

(** ** Authentication *)

Lemma bytes_Equal_false (a b : bytes) : negb (bytes_Equal a b) = true <-> a <> b.
Proof.
  unfold bytes_Equal. rewrite negb_true_iff, bool_decide_eq_false. done.
Qed.

(** A successful decode step leaves the decoded envelope in the receiver. *)
Lemma DecodeBytes_accepts (h h1 : heap) (p : loc) (v0 v : message) (b : bytes) :
  h !! p = Some v0 ->
  rlp.DecodeBytes b p h = Some (None, h1) -> h1 !! p = Some v ->
  decode_msg b = Ok (v, []) /\ h1 = <[p := v]> h.
Proof.
  intros Hp Hd Hv. rewrite (DecodeBytes_run h p v0 b Hp) in Hd.
  destruct (decode_msg b) as [[v' [|x s']]|e]; try done.
  injection Hd as <-. rewrite (lookup_stored h p v0 v' Hp) in Hv.
  by injection Hv as ->.
Qed.

(** C3: with a callback, [FromPayload] returns [errInvalidSigner] exactly
    when the input decodes and the address that the callback recovers
    from [PayloadNoSig] and the signature differs from the envelope's
    [Address]; with a nil callback it is the decode step and nothing
    else. *)
Theorem C3_FromPayload_InvalidSigner_iff
    (h : heap) (p : loc) (v0 : message) (b : bytes) (validateFn : validator) :
  h !! p = Some v0 ->
  (returns (FromPayload p b (Some validateFn)) h = Some (Some errInvalidSigner) <->
   exists (h1 : heap) (v : message) (payload signerAddr : bytes),
     rlp.DecodeBytes b p h = Some (None, h1) /\ h1 !! p = Some v /\
     returns (PayloadNoSig p) h1 = Some (Ok payload) /\
     validateFn payload (Signature v) = Signer signerAddr /\
     signerAddr <> Address v) /\
  FromPayload p b None h = rlp.DecodeBytes b p h.
Proof.
  intros Hp. split; [|apply FromPayload_nil_run].
  unfold returns. rewrite (FromPayload_run h p v0 b validateFn Hp). split.
  - intros Hret. pose proof (DecodeBytes_run h p v0 b Hp) as Hrun.
    destruct (decode_msg b) as [[v [|x s']]|e] eqn:E; simpl in Hret.
    + pose proof (lookup_stored h p v0 v Hp) as Hv.
      exists (<[p := v]> h), v, (wire (unsigned v)).
      destruct (validateFn (wire (unsigned v)) (Signature v)) as [a|msg] eqn:Ef;
        [|done].
      destruct (negb (bytes_Equal a (Address v))) eqn:Eq; [|done].
      exists a. split; [done|]. split; [done|].
      split; [by rewrite (PayloadNoSig_run _ _ v Hv)|].
      split; [done|]. by apply bytes_Equal_false.
    + done.
    + injection Hret as ->. by apply decode_msg_err in E.
  - intros (h1 & v & payload & a & Hd & Hv & Hpay & Hf & Hne).
    destruct (DecodeBytes_accepts h h1 p v0 v b Hp Hd Hv) as [E ->].
    rewrite E. simpl.
    unfold returns in Hpay.
    rewrite (PayloadNoSig_run _ _ v Hv) in Hpay. injection Hpay as <-.
    rewrite Hf. apply bytes_Equal_false in Hne. by rewrite Hne.
Qed.

Lemma C3_FromPayload_InvalidSigner_iff_witness :
  returns (FromPayload 0 (wire sample) (Some zero_signer)) [blank]
  = Some (Some errInvalidSigner).
Proof.
  apply (C3_FromPayload_InvalidSigner_iff [blank] 0 blank (wire sample) zero_signer eq_refl).
  exists [sample], sample, (wire (unsigned sample)), (replicate 20 x00).
  repeat split. discriminate.
Defined.

(** C9: when the input decodes and the signer check fails, [FromPayload]
    returns [errInvalidSigner] with the receiver already holding the
    decoded envelope; what it held before the call is gone. *)
Theorem C9_FromPayload_not_atomic
    (h h1 : heap) (p : loc) (v0 v : message) (b payload signerAddr : bytes)
    (validateFn : validator) :
  h !! p = Some v0 ->
  rlp.DecodeBytes b p h = Some (None, h1) -> h1 !! p = Some v ->
  returns (PayloadNoSig p) h1 = Some (Ok payload) ->
  validateFn payload (Signature v) = Signer signerAddr ->
  signerAddr <> Address v ->
  exists h' : heap,
    FromPayload p b (Some validateFn) h = Some (Some errInvalidSigner, h') /\
    h' !! p = Some v /\
    (v <> v0 -> h' !! p <> h !! p).
Proof.
  intros Hp Hd Hv Hpay Hf Hne.
  destruct (DecodeBytes_accepts h h1 p v0 v b Hp Hd Hv) as [E ->].
  unfold returns in Hpay.
  rewrite (PayloadNoSig_run _ _ v Hv) in Hpay. injection Hpay as <-.
  rewrite (FromPayload_run h p v0 b validateFn Hp), E, Hf.
  apply bytes_Equal_false in Hne. rewrite Hne.
  eexists. split; [done|].
  assert (Hv' : (<[p := v]> h ++ [unsigned v]) !! p = Some v)
    by (by apply lookup_app_l_Some).
  split; [done|]. rewrite Hv', Hp. congruence.
Qed.

Lemma C9_FromPayload_not_atomic_witness :
  exists h' : heap,
    FromPayload 0 (wire sample) (Some zero_signer) [blank]
      = Some (Some errInvalidSigner, h') /\
    h' !! 0 = Some sample /\
    (sample <> blank -> h' !! 0 <> [blank] !! 0).
Proof.
  apply (C9_FromPayload_not_atomic [blank] [sample] 0 blank sample (wire sample)
           (wire (unsigned sample)) (replicate 20 x00) zero_signer).
  - reflexivity.
  - reflexivity.
  - reflexivity.
  - reflexivity.
  - reflexivity.
  - discriminate.
Defined.

(** ** Views *)

(** C4: [GetView] dispatches on the code.  A Preprepare payload is decoded
    as a proposal and its view returned; Prepare, Commit and RoundChange
    payloads are decoded as subjects and their view returned; every other
    code, 99 for one, gives [errInvalidMessage]. *)
Theorem C4_GetView_dispatch
    (Proposal : Type)
    (decodePreprepare : bytes -> result (Preprepare Proposal))
    (decodeSubject : bytes -> result Subject)
    (h : heap) (p : loc) (v : message) :
  h !! p = Some v ->
  (Code v = msgPreprepare ->
   GetView Proposal decodePreprepare decodeSubject p h
   = Some (result_map Preprepare_View (decodePreprepare (Msg v)), h)) /\
  (Code v = msgPrepare \/ Code v = msgCommit \/ Code v = msgRoundChange ->
   GetView Proposal decodePreprepare decodeSubject p h
   = Some (result_map Subject_View (decodeSubject (Msg v)), h)) /\
  (Code v <> msgPreprepare -> Code v <> msgPrepare ->
   Code v <> msgCommit -> Code v <> msgRoundChange ->
   GetView Proposal decodePreprepare decodeSubject p h
   = Some (Err errInvalidMessage, h)) /\
  (Code v = 99%N ->
   GetView Proposal decodePreprepare decodeSubject p h
   = Some (Err errInvalidMessage, h)).
Proof.
  intros Hp.
  assert (Hrun : forall (T : Type) (val : bytes -> result T),
            Decode p val h = Some (val (Msg v), h)).
  { intros T val. unfold Decode, mbind, M_bind. by rewrite (load_run h p v Hp). }
  assert (Hother : Code v <> msgPreprepare -> Code v <> msgPrepare ->
            Code v <> msgCommit -> Code v <> msgRoundChange ->
            GetView Proposal decodePreprepare decodeSubject p h
            = Some (Err errInvalidMessage, h)).
  { intros H0 H1 H2 H3. unfold GetView, mbind, M_bind.
    rewrite (load_run h p v Hp).
    destruct (decide (Code v = msgPreprepare)); [done|].
    destruct (decide (_ \/ _)) as [[?|[?|?]]|?]; done. }
  split; [|split; [|split]].
  - intros Hc. unfold GetView. unfold mbind at 1. unfold M_bind at 1.
    rewrite (load_run h p v Hp).
    destruct (decide (Code v = msgPreprepare)); [|done].
    unfold mbind, M_bind. rewrite Hrun. by destruct (decodePreprepare (Msg v)).
  - intros Hc. unfold GetView. unfold mbind at 1. unfold M_bind at 1.
    rewrite (load_run h p v Hp).
    destruct (decide (Code v = msgPreprepare)) as [H0|_].
    { exfalso. unfold msgPreprepare, msgPrepare, msgCommit, msgRoundChange in *.
      rewrite H0 in Hc. by destruct Hc as [?|[?|?]]. }
    destruct (decide (_ \/ _)); [|done].
    unfold mbind, M_bind. rewrite Hrun. by destruct (decodeSubject (Msg v)).
  - exact Hother.
  - intros Hc. apply Hother; rewrite Hc; done.
Qed.

Lemma C4_GetView_dispatch_witness :
  GetView bytes (fun b => Ok {| Preprepare_View := Build_View 10 0; Preprepare_Proposal := b |})
    (fun b => Ok {| Subject_View := Build_View 10 1; Subject_Digest := b |})
    0 [sample_kind_99]
  = Some (Err errInvalidMessage, [sample_kind_99]) /\
  GetView bytes (fun b => Ok {| Preprepare_View := Build_View 10 0; Preprepare_Proposal := b |})
    (fun b => Ok {| Subject_View := Build_View 10 1; Subject_Digest := b |})
    0 [sample]
  = Some (Ok (Build_View 10 1), [sample]).
Proof.
  split.
  - apply (C4_GetView_dispatch bytes _ _ [sample_kind_99] 0 sample_kind_99 eq_refl).
    reflexivity.
  - apply (C4_GetView_dispatch bytes
             (fun b => Ok {| Preprepare_View := Build_View 10 0; Preprepare_Proposal := b |})
             (fun b => Ok {| Subject_View := Build_View 10 1; Subject_Digest := b |})
             [sample] 0 sample eq_refl).
    left. reflexivity.
Defined.

(** ** Phases *)

(** C5: on the four phases in the order AcceptRequest, Preprepared,
    Prepared, Committed, [Cmp] is -1 when the receiver comes earlier, 0
    when both are the same phase and +1 when the receiver comes later. *)
Theorem C5_Cmp_orders_phases (i j : nat) (s y : State) :
  phases !! i = Some s -> phases !! j = Some y ->
  Cmp s y = (if (i <? j)%nat then -1 else if (i =? j)%nat then 0 else 1)%Z.
Proof.
  intros Hi Hj.
  destruct i as [|[|[|[|i]]]]; simpl in Hi; try done;
    destruct j as [|[|[|[|j]]]]; simpl in Hj; try done;
    injection Hi as <-; injection Hj as <-; reflexivity.
Qed.

Lemma C5_Cmp_orders_phases_witness :
  Cmp StatePreprepared StateCommitted = (-1)%Z /\
  Cmp StatePrepared StatePrepared = 0%Z /\
  Cmp StateCommitted StateAcceptRequest = 1%Z.
Proof.
  split; [|split].
  - apply (C5_Cmp_orders_phases 1 3); reflexivity.
  - apply (C5_Cmp_orders_phases 2 2); reflexivity.
  - apply (C5_Cmp_orders_phases 3 0); reflexivity.
Defined.

(** ** Effective governance parameters *)

Section GovFacts.
Context {ParamName : Type} `{Countable ParamName}.
Variable any : Type.
Variable canonical : ParamName -> any -> option any.

(** One [Set] after an overlay is the overlay of one more entry. *)
Lemma overlay_Set (l : gmap ParamName any) (ret : gmap ParamName any)
    (k : ParamName) (v : any) :
  l !! k = None ->
  map_imap canonical l ∪ ParamSet_Set any canonical ret k v
  = map_imap canonical (<[k := v]> l) ∪ ret.
Proof.
  intros Hk. apply map_eq. intros i.
  rewrite !lookup_union, !map_lookup_imap. unfold ParamSet_Set.
  destruct (decide (i = k)) as [->|Hne].
  - rewrite Hk, lookup_insert_eq. simpl.
    destruct (canonical k v) as [v'|].
    + rewrite lookup_insert_eq. simpl. destruct (ret !! k); reflexivity.
    + simpl. destruct (ret !! k); reflexivity.
  - rewrite (lookup_insert_ne l) by done.
    destruct (canonical k v) as [v'|]; [|done].
    by rewrite (lookup_insert_ne ret).
Qed.

(** The loop over a duplicate-free list of entries builds the overlay. *)
Lemma foldl_Set_overlay (l : list (ParamName * any)) (ret : gmap ParamName any) :
  NoDup l.*1 ->
  foldl (fun r kv => ParamSet_Set any canonical r kv.1 kv.2) ret l
  = overlay any canonical (list_to_map l) ret.
Proof.
  revert ret. induction l as [|[k v] l IH]; intros ret Hnd.
  - unfold overlay. simpl. rewrite map_imap_empty. by rewrite (left_id_L ∅ (∪)).
  - simpl in Hnd. apply NoDup_cons in Hnd as [Hk Hnd].
    simpl. rewrite IH by done. unfold overlay.
    apply overlay_Set. by apply not_elem_of_list_to_map_1.
Qed.

(** Whatever order the loop visits the map in. *)
Lemma range_Set_overlay (range : gmap ParamName any -> list (ParamName * any))
    (p ret : gmap ParamName any) :
  (forall q, range q ≡ₚ map_to_list q) ->
  range_Set any canonical range p ret = overlay any canonical p ret.
Proof.
  intros Hrange. unfold range_Set.
  assert (Hnd : NoDup (range p).*1).
  { rewrite (Hrange p). apply NoDup_fst_map_to_list. }
  rewrite foldl_Set_overlay by done.
  by rewrite (list_to_map_proper _ _ Hnd (Hrange p)), list_to_map_to_list.
Qed.
End GovFacts.

(** C10: at a block where [isKoreHF] is false, [EffectiveParamSet] is the
    default parameter set overlaid with the header governance parameters
    of that block, and does not depend on the contract governance module;
    where [isKoreHF] is true the contract governance parameters are
    overlaid after them, so that they win. *)
Theorem C10_EffectiveParamSet_overlays
    {ParamName : Type} `{Countable ParamName} (any : Type)
    (canonical : ParamName -> any -> option any)
    (GetDefaultGovernanceParamSet : gmap ParamName any)
    (range : gmap ParamName any -> list (ParamName * any))
    (m : GovModule any) (blockNum : N) :
  (forall q, range q ≡ₚ map_to_list q) ->
  (isKoreHF any m blockNum = false ->
   EffectiveParamSet any canonical GetDefaultGovernanceParamSet range m blockNum
   = overlay any canonical (Hgm_EffectiveParamsPartial any m blockNum)
       GetDefaultGovernanceParamSet) /\
  (isKoreHF any m blockNum = false ->
   forall m' : GovModule any,
     Hgm_EffectiveParamsPartial any m' blockNum = Hgm_EffectiveParamsPartial any m blockNum ->
     isKoreHF any m' blockNum = false ->
     EffectiveParamSet any canonical GetDefaultGovernanceParamSet range m' blockNum
     = EffectiveParamSet any canonical GetDefaultGovernanceParamSet range m blockNum) /\
  (isKoreHF any m blockNum = true ->
   EffectiveParamSet any canonical GetDefaultGovernanceParamSet range m blockNum
   = overlay any canonical (Cgm_EffectiveParamsPartial any m blockNum)
       (overlay any canonical (Hgm_EffectiveParamsPartial any m blockNum)
          GetDefaultGovernanceParamSet)).
Proof.
  intros Hrange. unfold EffectiveParamSet. split; [|split].
  - intros ->. by apply range_Set_overlay.
  - intros -> m' Hh ->. by rewrite Hh.
  - intros ->. by rewrite !range_Set_overlay.
Qed.

Lemma C10_EffectiveParamSet_overlays_witness :
  EffectiveParamSet nat sample_canonical sample_default map_to_list sample_gov 5
  = overlay nat sample_canonical (Hgm_EffectiveParamsPartial nat sample_gov 5)
      sample_default /\
  EffectiveParamSet nat sample_canonical sample_default map_to_list sample_gov 200
  = overlay nat sample_canonical (Cgm_EffectiveParamsPartial nat sample_gov 200)
      (overlay nat sample_canonical (Hgm_EffectiveParamsPartial nat sample_gov 200)
         sample_default).
Proof.
  split.
  - apply (C10_EffectiveParamSet_overlays nat sample_canonical sample_default
             map_to_list sample_gov 5); [reflexivity|reflexivity].
  - apply (C10_EffectiveParamSet_overlays nat sample_canonical sample_default
             map_to_list sample_gov 200); [reflexivity|reflexivity].
Defined.

(** The sample module run: before the fork the header value stands, after
    it the contract value does, and the refused zero changes nothing. *)
Example EffectiveParamSet_sample_run :
  EffectiveParamSet nat sample_canonical sample_default map_to_list sample_gov 5
    !! "governance.unitprice" = Some 500 /\
  EffectiveParamSet nat sample_canonical sample_default map_to_list sample_gov 200
    !! "governance.unitprice" = Some 750 /\
  EffectiveParamSet nat sample_canonical sample_default map_to_list sample_gov 200
    !! "istanbul.committeesize" = Some 13.
Proof. vm_compute. done. Qed.

(** * Further properties of the code *)

(** ** Sizes of wire forms *)

Lemma length_puthead_pos (smalltag largetag size : N) :
  1 <= length (rlp.puthead smalltag largetag size).
Proof. unfold rlp.puthead. destruct (size <? 56)%N; simpl; lia. Qed.

Lemma length_encodeBytes_pos (b : bytes) : 1 <= length (rlp.encodeBytes b).
Proof.
  destruct (encodeBytes_cases b) as [(x & -> & _ & ->)|[_ ->]]; [simpl; lia|].
  rewrite length_app. pose proof (length_puthead_pos 0x80 0xB7 (N.of_nat (length b))). lia.
Qed.

Lemma length_encodeBytes_header (b : bytes) :
  2 <= length b -> S (length b) <= length (rlp.encodeBytes b).
Proof.
  intros Hb. destruct (encodeBytes_cases b) as [(x & -> & _ & _)|[_ ->]];
    [simpl in Hb; lia|].
  rewrite length_app. pose proof (length_puthead_pos 0x80 0xB7 (N.of_nat (length b))). lia.
Qed.

Lemma length_encodeUint_pos (i : N) : 1 <= length (rlp.encodeUint i).
Proof.
  unfold rlp.encodeUint. destruct (i =? 0)%N; [simpl; lia|].
  destruct (i <? 128)%N; simpl; lia.
Qed.

Lemma body_unfold (v : message) :
  body v = rlp.encodeBytes (Hash v) ++ rlp.encodeUint (Code v) ++
           rlp.encodeBytes (Msg v) ++ rlp.encodeBytes (Address v) ++
           rlp.encodeBytes (Signature v) ++ rlp.encodeBytes (CommittedSeal v).
Proof. unfold body, fields. simpl. by rewrite app_nil_r. Qed.

Lemma wire_unfold (v : message) :
  wire v = rlp.puthead 0xC0 0xF7 (N.of_nat (length (body v))) ++ body v.
Proof. reflexivity. Qed.

Lemma body_length_ge (v : message) : message_ok v -> 58 <= length (body v).
Proof.
  intros (Hh & Ha & _ & _). rewrite body_unfold, !length_app.
  pose proof (length_encodeBytes_header (Hash v) ltac:(lia)).
  pose proof (length_encodeBytes_header (Address v) ltac:(lia)).
  pose proof (length_encodeUint_pos (Code v)).
  pose proof (length_encodeBytes_pos (Msg v)).
  pose proof (length_encodeBytes_pos (Signature v)).
  pose proof (length_encodeBytes_pos (CommittedSeal v)). lia.
Qed.

Lemma wire_length_ge (v : message) : message_ok v -> 60 <= length (wire v).
Proof.
  intros Hv. pose proof (body_length_ge v Hv) as Hb.
  rewrite wire_unfold, length_app. unfold rlp.puthead.
  destruct (N.ltb_spec (N.of_nat (length (body v))) 56); [lia|].
  simpl length. rewrite length_putint.
  destruct Hv as (_ & _ & _ & Hmax).
  pose proof (intsize_range _ Hmax). lia.
Qed.

(** ** Valid envelopes and their wire forms *)

Lemma message_ok_unsigned (v : message) : message_ok v -> message_ok (unsigned v).
Proof.
  intros (Hh & Ha & Hc & Hb). split; [done|split; [done|split; [done|]]].
  rewrite body_unfold in *. simpl Signature. rewrite !length_app in *.
  pose proof (length_encodeBytes_pos (Signature v)).
  change (length (rlp.encodeBytes [])) with 1. simpl Hash. simpl Code.
  simpl Msg. simpl Address. simpl CommittedSeal. lia.
Qed.

Lemma wire_inj (v1 v2 : message) :
  message_ok v1 -> message_ok v2 -> wire v1 = wire v2 -> v1 = v2.
Proof.
  intros H1 H2 Hw.
  pose proof (decode_msg_wire v1 [] H1) as D1.
  pose proof (decode_msg_wire v2 [] H2) as D2.
  rewrite Hw, D2 in D1. by injection D1.
Qed.

Lemma Payload_run (h : heap) (p : loc) (v : message) :
  h !! p = Some v -> Payload p h = Some (Ok (wire v), h).
Proof. intros Hp. by apply EncodeRLP_run. Qed.

(** What an accepting [FromPayload] did. *)
Lemma FromPayload_accepted_inv (h h' : heap) (p : loc) (v0 : message) (b : bytes)
    (validateFn : option validator) :
  h !! p = Some v0 ->
  FromPayload p b validateFn h = Some (None, h') ->
  exists v, b = wire v /\ message_ok v /\ h' !! p = Some v /\
    match validateFn with
    | None => h' = <[p := v]> h
    | Some f =>
        h' = <[p := v]> h ++ [unsigned v] /\
        f (wire (unsigned v)) (Signature v) = Signer (Address v)
    end.
Proof.
  intros Hp Hrun. destruct validateFn as [f|].
  - rewrite (FromPayload_run h p v0 b f Hp) in Hrun.
    destruct (decode_msg b) as [[v [|x s']]|e] eqn:E; try done.
    apply decode_msg_inv in E as [-> Hv]. rewrite app_nil_r.
    injection Hrun as Hres <-. exists v.
    split; [done|]. split; [done|].
    split; [apply lookup_app_l_Some; by eapply lookup_stored|].
    split; [done|].
    destruct (f (wire (unsigned v)) (Signature v)) as [a|msg]; [|done].
    destruct (negb (bytes_Equal a (Address v))) eqn:Eq; [done|].
    apply negb_false_iff in Eq. unfold bytes_Equal in Eq.
    apply bool_decide_eq_true in Eq. by rewrite Eq.
  - rewrite FromPayload_nil_run, (DecodeBytes_run h p v0 b Hp) in Hrun.
    destruct (decode_msg b) as [[v [|x s']]|e] eqn:E; try done.
    apply decode_msg_inv in E as [-> Hv]. rewrite app_nil_r.
    injection Hrun as <-. exists v.
    split; [done|]. split; [done|]. split; [by eapply lookup_stored|done].
Qed.

Lemma returns_inv {A : Type} (c : M A) (h : heap) (a : A) :
  returns c h = Some a -> exists h', c h = Some (a, h').
Proof.
  unfold returns. destruct (c h) as [[a' h']|]; [|done].
  simpl. intros [= ->]. by exists h'.
Qed.

Lemma bytes_Equal_refl (a : bytes) : bytes_Equal a a = true.
Proof. unfold bytes_Equal. by apply bool_decide_eq_true. Qed.

Lemma FromPayload_accepts (h : heap) (p : loc) (v0 v : message) (f : validator) :
  h !! p = Some v0 -> message_ok v ->
  f (wire (unsigned v)) (Signature v) = Signer (Address v) ->
  FromPayload p (wire v) (Some f) h = Some (None, <[p := v]> h ++ [unsigned v]).
Proof.
  intros Hp Hv Hf. rewrite (FromPayload_run h p v0 _ f Hp).
  rewrite <- (app_nil_r (wire v)) at 1. rewrite (decode_msg_wire v [] Hv).
  by rewrite Hf, bytes_Equal_refl.
Qed.

Lemma FromPayload_nil_accepts (h : heap) (p : loc) (v0 v : message) :
  h !! p = Some v0 -> message_ok v ->
  FromPayload p (wire v) None h = Some (None, <[p := v]> h).
Proof.
  intros Hp Hv. rewrite FromPayload_nil_run, (DecodeBytes_run h p v0 _ Hp).
  rewrite <- (app_nil_r (wire v)) at 1. by rewrite (decode_msg_wire v [] Hv).
Qed.

(** ** Phases beyond the four named ones *)

Lemma Cmp_cases (a b : N) :
  (a < b)%N /\ Cmp a b = (-1)%Z \/ a = b /\ Cmp a b = 0%Z \/
  (b < a)%N /\ Cmp a b = 1%Z.
Proof.
  unfold Cmp. destruct (N.ltb_spec a b); [by left|].
  destruct (N.ltb_spec b a); [by right; right|].
  right; left. split; [lia|done].
Qed.

(** X1: on all states, named or not, [Cmp] is a three-way comparison of
    the numbers: -1 for every earlier state (not only the one just
    before), 0 for the same state alone, +1 for every later one; swapping
    the arguments negates it, and "earlier" is transitive. *)
Theorem X1_Cmp_three_way (s y z : State) :
  (Cmp s y = (-1)%Z <-> (s < y)%N) /\
  (Cmp s y = 0%Z <-> s = y) /\
  (Cmp s y = 1%Z <-> (y < s)%N) /\
  Cmp y s = (- Cmp s y)%Z /\
  (Cmp s y = (-1)%Z -> Cmp y z = (-1)%Z -> Cmp s z = (-1)%Z).
Proof.
  pose proof (Cmp_cases s y). pose proof (Cmp_cases y s).
  pose proof (Cmp_cases y z). pose proof (Cmp_cases s z).
  unfold State in *. repeat split; intros; lia.
Qed.

(** X2: [String] gives the four phases four different names and calls
    every other state Unknown. *)
Theorem X2_State_String_names (s y : State) :
  (In s phases -> In y phases -> State_String s = State_String y -> s = y) /\
  (State_String s = "Unknown" <-> (StateCommitted < s)%N).
Proof.
  split.
  - unfold phases. simpl.
    intros [<-|[<-|[<-|[<-|[]]]]] [<-|[<-|[<-|[<-|[]]]]]; by vm_compute.
  - unfold State_String, StateAcceptRequest, StatePreprepared, StatePrepared,
      StateCommitted, State in *.
    repeat case_decide; subst; split; intros; try done; try lia.
Qed.

(** ** Payloads on the wire *)

(** X3: what [Payload] (or [Encode]) produces for a valid envelope is
    accepted by [FromPayload], without a callback and with any callback
    that recovers the sender from [PayloadNoSig] and the signature, and
    the receiver then holds that envelope. *)
Theorem X3_Payload_FromPayload_round_trip (h : heap) (q p : loc) (v v0 : message) :
  message_ok v -> h !! q = Some v -> h !! p = Some v0 ->
  exists b : bytes,
    Payload q h = Some (Ok b, h) /\
    Encode q h = Some (Ok b, h) /\
    FromPayload p b None h = Some (None, <[p := v]> h) /\
    (forall f : validator,
       (forall payload : bytes,
          returns (PayloadNoSig q) h = Some (Ok payload) ->
          f payload (Signature v) = Signer (Address v)) ->
       exists h' : heap,
         FromPayload p b (Some f) h = Some (None, h') /\ h' !! p = Some v).
Proof.
  intros Hv Hq Hp. exists (wire v).
  split; [by apply Payload_run|]. split; [by apply Payload_run|].
  split; [by eapply FromPayload_nil_accepts|].
  intros f Hf. eexists. split.
  - eapply FromPayload_accepts; [done|done|]. apply Hf.
    unfold returns. by rewrite (PayloadNoSig_run h q v Hq).
  - apply lookup_app_l_Some. by eapply lookup_stored.
Qed.

Lemma X3_Payload_FromPayload_round_trip_witness :
  exists b : bytes,
    Payload 0 [sample; blank] = Some (Ok b, [sample; blank]) /\
    Encode 0 [sample; blank] = Some (Ok b, [sample; blank]) /\
    FromPayload 1 b None [sample; blank] = Some (None, [sample; sample]) /\
    (forall f : validator,
       (forall payload : bytes,
          returns (PayloadNoSig 0) [sample; blank] = Some (Ok payload) ->
          f payload (Signature sample) = Signer (Address sample)) ->
       exists h' : heap,
         FromPayload 1 b (Some f) [sample; blank] = Some (None, h') /\
         h' !! 1 = Some sample).
Proof.
  apply (X3_Payload_FromPayload_round_trip [sample; blank] 0 1 sample blank).
  - repeat split.
  - reflexivity.
  - reflexivity.
Defined.

(** X4: an input that [FromPayload] accepts is canonical: afterwards the
    receiver holds a valid envelope (32-byte hash, 20-byte address) and
    its [Payload] is the input again, byte for byte. *)
Theorem X4_accepted_input_is_reproduced
    (h h' : heap) (p : loc) (v0 : message) (b : bytes)
    (validateFn : option validator) :
  h !! p = Some v0 ->
  FromPayload p b validateFn h = Some (None, h') ->
  returns (Payload p) h' = Some (Ok b) /\
  exists v, h' !! p = Some v /\ message_ok v.
Proof.
  intros Hp Hrun.
  destruct (FromPayload_accepted_inv h h' p v0 b validateFn Hp Hrun)
    as (v & -> & Hv & Hv' & _).
  split; [|by exists v].
  unfold returns. by rewrite (Payload_run h' p v Hv').
Qed.

Lemma X4_accepted_input_is_reproduced_witness :
  returns (Payload 0) [sample; unsigned sample] = Some (Ok (wire sample)) /\
  exists v, [sample; unsigned sample] !! 0 = Some v /\ message_ok v.
Proof.
  apply (X4_accepted_input_is_reproduced [blank] [sample; unsigned sample] 0 blank
           (wire sample) (Some sample_signer)).
  - reflexivity.
  - reflexivity.
Defined.

(** X5: [Payload] is injective on valid envelopes: two envelopes with the
    same payload agree on all six fields. *)
Theorem X5_Payload_injective
    (h1 h2 : heap) (p1 p2 : loc) (v1 v2 : message) :
  message_ok v1 -> message_ok v2 ->
  h1 !! p1 = Some v1 -> h2 !! p2 = Some v2 ->
  returns (Payload p1) h1 = returns (Payload p2) h2 -> v1 = v2.
Proof.
  intros Hv1 Hv2 H1 H2. unfold returns.
  rewrite (Payload_run h1 p1 v1 H1), (Payload_run h2 p2 v2 H2). simpl.
  intros [= Hw]. by apply wire_inj.
Qed.

Lemma X5_Payload_injective_witness :
  unsigned sample_other_signature = unsigned sample.
Proof.
  apply (X5_Payload_injective [unsigned sample_other_signature] [blank; unsigned sample] 0 1).
  - repeat split.
  - repeat split.
  - reflexivity.
  - reflexivity.
  - reflexivity.
Defined.

(** X6: the signing payload binds every field but the signature: two
    valid envelopes have the same [PayloadNoSig] exactly when they agree
    on hash, code, message, address and committed seal. *)
Theorem X6_PayloadNoSig_binds_other_fields
    (h1 h2 : heap) (p1 p2 : loc) (v1 v2 : message) :
  message_ok v1 -> message_ok v2 ->
  h1 !! p1 = Some v1 -> h2 !! p2 = Some v2 ->
  (returns (PayloadNoSig p1) h1 = returns (PayloadNoSig p2) h2 <->
   same_but_signature v1 v2).
Proof.
  intros Hv1 Hv2 H1 H2. unfold returns.
  rewrite (PayloadNoSig_run h1 p1 v1 H1), (PayloadNoSig_run h2 p2 v2 H2). simpl.
  split.
  - intros [= Hw]. apply wire_inj in Hw; [|by apply message_ok_unsigned..].
    unfold unsigned in Hw. injection Hw as Hh Hc Hm Ha Hs. by repeat split.
  - intros (Hh & Hc & Hm & Ha & Hs). unfold unsigned.
    by rewrite Hh, Hc, Hm, Ha, Hs.
Qed.

Lemma X6_PayloadNoSig_binds_other_fields_witness :
  returns (PayloadNoSig 0) [sample] = returns (PayloadNoSig 0) [sample_other_signature]
  <-> same_but_signature sample sample_other_signature.
Proof.
  apply (X6_PayloadNoSig_binds_other_fields [sample] [sample_other_signature] 0 0).
  - repeat split.
  - repeat split.
  - reflexivity.
  - reflexivity.
Defined.

(** X7: for a valid envelope, the signing payload is the payload itself
    exactly when the signature is empty. *)
Theorem X7_PayloadNoSig_is_Payload_iff_unsigned (h : heap) (p : loc) (v : message) :
  message_ok v -> h !! p = Some v ->
  (returns (PayloadNoSig p) h = returns (Payload p) h <-> Signature v = []).
Proof.
  intros Hv Hp. unfold returns.
  rewrite (PayloadNoSig_run h p v Hp), (Payload_run h p v Hp). simpl. split.
  - intros [= Hw]. apply wire_inj in Hw; [|by apply message_ok_unsigned|done].
    by rewrite <- Hw.
  - intros Hs. destruct v as [hh c g a sg cs]. simpl in Hs. subst sg. done.
Qed.

Lemma X7_PayloadNoSig_is_Payload_iff_unsigned_witness :
  returns (PayloadNoSig 0) [blank] = returns (Payload 0) [blank] <-> Signature blank = [].
Proof.
  apply (X7_PayloadNoSig_is_Payload_iff_unsigned [blank] 0 blank).
  - repeat split.
  - reflexivity.
Defined.

(** X8: with a callback, [FromPayload] returns nil exactly when the input
    is the wire form of a valid envelope and the callback, given that
    envelope's [PayloadNoSig] and signature, recovers its address. *)
Theorem X8_FromPayload_accepts_iff
    (h : heap) (p : loc) (v0 : message) (b : bytes) (validateFn : validator) :
  h !! p = Some v0 ->
  (returns (FromPayload p b (Some validateFn)) h = Some None <->
   exists v : message,
     message_ok v /\ b = wire v /\
     validateFn (wire (unsigned v)) (Signature v) = Signer (Address v)).
Proof.
  intros Hp. split.
  - intros Hret. apply returns_inv in Hret as [h' Hrun].
    destruct (FromPayload_accepted_inv h h' p v0 b _ Hp Hrun)
      as (v & -> & Hv & _ & _ & Hf).
    by exists v.
  - intros (v & Hv & -> & Hf). unfold returns.
    by rewrite (FromPayload_accepts h p v0 v validateFn Hp Hv Hf).
Qed.

Lemma X8_FromPayload_accepts_iff_witness :
  returns (FromPayload 0 (wire sample) (Some sample_signer)) [blank] = Some None.
Proof.
  apply (X8_FromPayload_accepts_iff [blank] 0 blank (wire sample) sample_signer eq_refl).
  exists sample. repeat split.
Defined.

(** ** What [FromPayload] touches and what it refuses *)

(** X9: whatever it returns, [FromPayload] changes no envelope other than
    its receiver. *)
Theorem X9_FromPayload_frame
    (h h' : heap) (p : loc) (v0 : message) (b : bytes)
    (validateFn : option validator) (r : option error) :
  h !! p = Some v0 ->
  FromPayload p b validateFn h = Some (r, h') ->
  forall (q : loc) (w : message), q <> p -> h !! q = Some w -> h' !! q = Some w.
Proof.
  intros Hp Hrun q w Hq Hw.
  assert (Hins : forall v, <[p := v]> h !! q = Some w)
    by (intros v; by rewrite list_lookup_insert_ne).
  destruct validateFn as [f|].
  - rewrite (FromPayload_run h p v0 b f Hp) in Hrun.
    destruct (decode_msg b) as [[v [|x s']]|e]; injection Hrun as _ <-; try done.
    by apply lookup_app_l_Some.
  - rewrite FromPayload_nil_run, (DecodeBytes_run h p v0 b Hp) in Hrun.
    destruct (decode_msg b) as [[v s']|e]; injection Hrun as _ <-; done.
Qed.

Lemma X9_FromPayload_frame_witness :
  [sample_kind_99; sample; unsigned sample] !! 0 = Some sample_kind_99.
Proof.
  apply (X9_FromPayload_frame [sample_kind_99; blank] [sample_kind_99; sample; unsigned sample]
           1 blank (wire sample) (Some zero_signer) (Some errInvalidSigner)).
  - reflexivity.
  - reflexivity.
  - discriminate.
  - reflexivity.
Defined.

(** X10: no input shorter than 60 bytes is accepted: a valid envelope
    takes at least that many, so [FromPayload] returns a decode error and
    leaves every envelope, the receiver too, as it was. *)
Theorem X10_short_input_is_rejected
    (h : heap) (p : loc) (v0 : message) (b : bytes)
    (validateFn : option validator) :
  h !! p = Some v0 -> length b < 60 ->
  exists e : error,
    FromPayload p b validateFn h = Some (Some e, h) /\ DecodeError e = true.
Proof.
  intros Hp Hlen. pose proof (DecodeBytes_run h p v0 b Hp) as Hrun.
  destruct (decode_msg b) as [[v s']|e] eqn:E.
  - apply decode_msg_inv in E as [-> Hv]. pose proof (wire_length_ge v Hv).
    rewrite length_app in Hlen. lia.
  - exists e. split; [by apply FromPayload_decode_error|by eapply decode_msg_err].
Qed.

Lemma X10_short_input_is_rejected_witness :
  exists e : error,
    FromPayload 0 (take 59 (wire blank)) (Some sample_signer) [sample]
      = Some (Some e, [sample]) /\
    DecodeError e = true.
Proof.
  apply (X10_short_input_is_rejected [sample] 0 sample (take 59 (wire blank))).
  - reflexivity.
  - vm_compute. lia.
Defined.

(** X11: [DecodeRLP] reads one envelope off a stream and leaves what
    follows unread, so envelopes written one after another are read back
    one after another. *)
Theorem X11_DecodeRLP_reads_one_envelope
    (h : heap) (p : loc) (v0 v1 v2 : message) (rest : bytes) :
  message_ok v1 -> message_ok v2 -> h !! p = Some v0 ->
  DecodeRLP p (wire v1 ++ wire v2 ++ rest) h
    = Some ((wire v2 ++ rest, None), <[p := v1]> h) /\
  DecodeRLP p (wire v2 ++ rest) (<[p := v1]> h)
    = Some ((rest, None), <[p := v2]> h).
Proof.
  intros Hv1 Hv2 Hp. split.
  - by rewrite (DecodeRLP_run h p v0 _ Hp), (decode_msg_wire v1 _ Hv1).
  - rewrite (DecodeRLP_run _ p v1 _ (lookup_stored h p v0 v1 Hp)).
    by rewrite (decode_msg_wire v2 _ Hv2), list_insert_insert_eq.
Qed.

Lemma X11_DecodeRLP_reads_one_envelope_witness :
  DecodeRLP 0 (wire sample ++ wire sample_other_seal ++ [xc0]) [blank]
    = Some ((wire sample_other_seal ++ [xc0], None), [sample]) /\
  DecodeRLP 0 (wire sample_other_seal ++ [xc0]) [sample]
    = Some (([xc0], None), [sample_other_seal]).
Proof.
  apply (X11_DecodeRLP_reads_one_envelope [blank] 0 blank sample sample_other_seal [xc0]).
  - repeat split.
  - repeat split.
  - reflexivity.
Defined.

(** X12: the callback's own error is what [FromPayload] returns when the
    callback fails, and by then the receiver holds the decoded envelope. *)
Theorem X12_callback_error_is_returned
    (h : heap) (p : loc) (v0 v : message) (validateFn : validator) (msg : string) :
  h !! p = Some v0 -> message_ok v ->
  validateFn (wire (unsigned v)) (Signature v) = Refused msg ->
  exists h' : heap,
    FromPayload p (wire v) (Some validateFn) h = Some (Some (errVerify msg), h') /\
    h' !! p = Some v.
Proof.
  intros Hp Hv Hf. exists (<[p := v]> h ++ [unsigned v]). split.
  - rewrite (FromPayload_run h p v0 _ validateFn Hp).
    rewrite <- (app_nil_r (wire v)) at 1.
    by rewrite (decode_msg_wire v [] Hv), Hf.
  - apply lookup_app_l_Some. by eapply lookup_stored.
Qed.

Lemma X12_callback_error_is_returned_witness :
  exists h' : heap,
    FromPayload 0 (wire sample) (Some refusing) [blank]
      = Some (Some (errVerify "invalid signature"), h') /\
    h' !! 0 = Some sample.
Proof.
  apply (X12_callback_error_is_returned [blank] 0 blank sample refusing).
  - reflexivity.
  - repeat split.
  - reflexivity.
Defined.

(** X13: the signing payload is itself a wire form, that of the envelope
    with an empty signature: [FromPayload] accepts what [PayloadNoSig]
    returns and leaves that envelope in the receiver. *)
Theorem X13_PayloadNoSig_decodes_to_unsigned (h : heap) (q p : loc) (v v0 : message) :
  message_ok v -> h !! q = Some v -> h !! p = Some v0 ->
  exists (b : bytes) (h1 : heap),
    PayloadNoSig q h = Some (Ok b, h1) /\
    FromPayload p b None h1
      = Some (None, <[p := {| Hash := Hash v; Code := Code v; Msg := Msg v;
                              Address := Address v; Signature := [];
                              CommittedSeal := CommittedSeal v |}]> h1).
Proof.
  intros Hv Hq Hp. eexists _, _. split; [by apply PayloadNoSig_run|].
  eapply FromPayload_nil_accepts; [by apply lookup_app_l_Some|].
  by apply message_ok_unsigned.
Qed.

Lemma X13_PayloadNoSig_decodes_to_unsigned_witness :
  exists (b : bytes) (h1 : heap),
    PayloadNoSig 0 [sample; blank] = Some (Ok b, h1) /\
    FromPayload 1 b None h1
      = Some (None, <[1 := {| Hash := Hash sample; Code := Code sample;
                              Msg := Msg sample; Address := Address sample;
                              Signature := [];
                              CommittedSeal := CommittedSeal sample |}]> h1).
Proof.
  apply (X13_PayloadNoSig_decodes_to_unsigned [sample; blank] 0 1 sample blank).
  - repeat split.
  - reflexivity.
  - reflexivity.
Defined.

(** ** Views of accepted envelopes *)

Lemma GetView_run (Proposal : Type)
    (decodePreprepare : bytes -> result (Preprepare Proposal))
    (decodeSubject : bytes -> result Subject)
    (h : heap) (p : loc) (v : message) :
  h !! p = Some v ->
  GetView Proposal decodePreprepare decodeSubject p h
  = Some (view_of decodePreprepare decodeSubject v, h).
Proof.
  intros Hp. unfold GetView, view_of. unfold mbind at 1. unfold M_bind at 1.
  rewrite (load_run h p v Hp).
  destruct (decide (Code v = msgPreprepare)).
  - unfold Decode, mbind, M_bind. rewrite (load_run h p v Hp).
    by destruct (decodePreprepare (Msg v)).
  - destruct (decide (_ \/ _)); [|done].
    unfold Decode, mbind, M_bind. rewrite (load_run h p v Hp).
    by destruct (decodeSubject (Msg v)).
Qed.

(** X14: [FromPayload] does not check the code: the wire form of a valid
    envelope whose code is none of the four kinds is accepted, callback or
    not, and it is [GetView] on the receiver that then fails, with
    [errInvalidMessage]. *)
Theorem X14_unknown_code_is_caught_by_GetView
    (Proposal : Type)
    (decodePreprepare : bytes -> result (Preprepare Proposal))
    (decodeSubject : bytes -> result Subject)
    (h : heap) (p : loc) (v0 v : message) :
  h !! p = Some v0 -> message_ok v -> (msgRoundChange < Code v)%N ->
  FromPayload p (wire v) None h = Some (None, <[p := v]> h) /\
  GetView Proposal decodePreprepare decodeSubject p (<[p := v]> h)
    = Some (Err errInvalidMessage, <[p := v]> h) /\
  (forall f : validator,
     f (wire (unsigned v)) (Signature v) = Signer (Address v) ->
     exists h' : heap,
       FromPayload p (wire v) (Some f) h = Some (None, h') /\
       GetView Proposal decodePreprepare decodeSubject p h'
         = Some (Err errInvalidMessage, h')).
Proof.
  intros Hp Hv Hc.
  assert (Hview : view_of decodePreprepare decodeSubject v = Err errInvalidMessage).
  { unfold view_of, msgPreprepare, msgPrepare, msgCommit, msgRoundChange in *.
    destruct (decide (Code v = 0%N)); [lia|].
    destruct (decide (_ \/ _)) as [[?|[?|?]]|?]; [lia..|done]. }
  pose proof (lookup_stored h p v0 v Hp) as Hv'.
  split; [by eapply FromPayload_nil_accepts|]. split.
  - by rewrite (GetView_run _ _ _ _ p v Hv'), Hview.
  - intros f Hf. eexists. split; [by eapply FromPayload_accepts|].
    rewrite (GetView_run _ _ _ _ p v); [by rewrite Hview|].
    by apply lookup_app_l_Some.
Qed.

Lemma X14_unknown_code_is_caught_by_GetView_witness :
  FromPayload 0 (wire sample_kind_99) None [blank] = Some (None, [sample_kind_99]) /\
  GetView bytes sample_decodePreprepare sample_decodeSubject 0 [sample_kind_99]
    = Some (Err errInvalidMessage, [sample_kind_99]).
Proof.
  pose proof (X14_unknown_code_is_caught_by_GetView bytes sample_decodePreprepare
                sample_decodeSubject [blank] 0 blank sample_kind_99) as Hx.
  destruct Hx as (Hfrom & Hview & _).
  - reflexivity.
  - repeat split.
  - reflexivity.
  - split; [exact Hfrom|exact Hview].
Defined.

(** X15: [GetView] looks at the code and the inner payload only and
    changes nothing: envelopes that agree on these two fields have the
    same view or the same error, whatever their hash, sender, signature
    and committed seal. *)
Theorem X15_GetView_reads_code_and_payload_only
    (Proposal : Type)
    (decodePreprepare : bytes -> result (Preprepare Proposal))
    (decodeSubject : bytes -> result Subject)
    (h1 h2 : heap) (p1 p2 : loc) (v1 v2 : message) :
  h1 !! p1 = Some v1 -> h2 !! p2 = Some v2 ->
  Code v1 = Code v2 -> Msg v1 = Msg v2 ->
  returns (GetView Proposal decodePreprepare decodeSubject p1) h1
    = returns (GetView Proposal decodePreprepare decodeSubject p2) h2 /\
  exists r : result View,
    GetView Proposal decodePreprepare decodeSubject p1 h1 = Some (r, h1).
Proof.
  intros H1 H2 Hc Hm. unfold returns.
  rewrite (GetView_run _ _ _ h1 p1 v1 H1), (GetView_run _ _ _ h2 p2 v2 H2).
  split; [|by eexists]. simpl. unfold view_of. by rewrite Hc, Hm.
Qed.

Lemma X15_GetView_reads_code_and_payload_only_witness :
  returns (GetView bytes sample_decodePreprepare sample_decodeSubject 0) [sample]
    = returns (GetView bytes sample_decodePreprepare sample_decodeSubject 1)
        [blank; sample_other_signature] /\
  exists r : result View,
    GetView bytes sample_decodePreprepare sample_decodeSubject 0 [sample]
      = Some (r, [sample]).
Proof.
  apply (X15_GetView_reads_code_and_payload_only bytes sample_decodePreprepare
           sample_decodeSubject [sample] [blank; sample_other_signature] 0 1
           sample sample_other_signature).
  - reflexivity.
  - reflexivity.
  - reflexivity.
  - reflexivity.
Defined.

(** ** Which value of a parameter is effective *)

Lemma overlay_lookup {ParamName : Type} `{Countable ParamName} (any : Type)
    (canonical : ParamName -> any -> option any)
    (p base : gmap ParamName any) (k : ParamName) :
  overlay any canonical p base !! k =
    match p !! k ≫= canonical k with
    | Some v => Some v
    | None => base !! k
    end.
Proof.
  unfold overlay. rewrite lookup_union, map_lookup_imap.
  destruct (p !! k ≫= canonical k); by destruct (base !! k).
Qed.

Lemma EffectiveParamSet_overlay {ParamName : Type} `{Countable ParamName} (any : Type)
    (canonical : ParamName -> any -> option any)
    (GetDefaultGovernanceParamSet : gmap ParamName any)
    (range : gmap ParamName any -> list (ParamName * any))
    (m : GovModule any) (blockNum : N) :
  (forall q, range q ≡ₚ map_to_list q) ->
  EffectiveParamSet any canonical GetDefaultGovernanceParamSet range m blockNum =
    if isKoreHF any m blockNum
    then overlay any canonical (Cgm_EffectiveParamsPartial any m blockNum)
           (overlay any canonical (Hgm_EffectiveParamsPartial any m blockNum)
              GetDefaultGovernanceParamSet)
    else overlay any canonical (Hgm_EffectiveParamsPartial any m blockNum)
           GetDefaultGovernanceParamSet.
Proof.
  intros Hrange. unfold EffectiveParamSet.
  rewrite !range_Set_overlay by done. done.
Qed.

(** X16: the effective value of a parameter is, in this order, the
    contract governance value if the block is past the Kore fork and [Set]
    accepts it, else the header governance value if [Set] accepts it, else
    the default; a value that [Set] refuses is passed over. *)
Theorem X16_EffectiveParamSet_precedence
    {ParamName : Type} `{Countable ParamName} (any : Type)
    (canonical : ParamName -> any -> option any)
    (GetDefaultGovernanceParamSet : gmap ParamName any)
    (range : gmap ParamName any -> list (ParamName * any))
    (m : GovModule any) (blockNum : N) (k : ParamName) :
  (forall q, range q ≡ₚ map_to_list q) ->
  EffectiveParamSet any canonical GetDefaultGovernanceParamSet range m blockNum !! k =
    match (if isKoreHF any m blockNum
           then Cgm_EffectiveParamsPartial any m blockNum !! k ≫= canonical k
           else None) with
    | Some v => Some v
    | None =>
        match Hgm_EffectiveParamsPartial any m blockNum !! k ≫= canonical k with
        | Some v => Some v
        | None => GetDefaultGovernanceParamSet !! k
        end
    end.
Proof.
  intros Hrange. rewrite EffectiveParamSet_overlay by done.
  destruct (isKoreHF any m blockNum); by rewrite !overlay_lookup.
Qed.

Lemma X16_EffectiveParamSet_precedence_witness :
  EffectiveParamSet nat sample_canonical sample_default map_to_list sample_gov 200
    !! "istanbul.committeesize" =
    match (if isKoreHF nat sample_gov 200
           then Cgm_EffectiveParamsPartial nat sample_gov 200 !! "istanbul.committeesize"
                  ≫= sample_canonical "istanbul.committeesize"
           else None) with
    | Some v => Some v
    | None =>
        match Hgm_EffectiveParamsPartial nat sample_gov 200 !! "istanbul.committeesize"
                ≫= sample_canonical "istanbul.committeesize" with
        | Some v => Some v
        | None => sample_default !! "istanbul.committeesize"
        end
    end.
Proof.
  apply (X16_EffectiveParamSet_precedence nat sample_canonical sample_default
           map_to_list sample_gov 200 "istanbul.committeesize").
  intros q. reflexivity.
Defined.

(** X17: [EffectiveParamSet] never drops a parameter and invents none: a
    name with a default still has a value, a name that neither partial
    set mentions keeps its default, and a name with a value has it from
    the defaults or from one of the partial sets. *)
Theorem X17_EffectiveParamSet_keeps_parameters
    {ParamName : Type} `{Countable ParamName} (any : Type)
    (canonical : ParamName -> any -> option any)
    (GetDefaultGovernanceParamSet : gmap ParamName any)
    (range : gmap ParamName any -> list (ParamName * any))
    (m : GovModule any) (blockNum : N) (k : ParamName) :
  (forall q, range q ≡ₚ map_to_list q) ->
  let ret := EffectiveParamSet any canonical GetDefaultGovernanceParamSet range m blockNum in
  (is_Some (GetDefaultGovernanceParamSet !! k) -> is_Some (ret !! k)) /\
  (Hgm_EffectiveParamsPartial any m blockNum !! k = None ->
   Cgm_EffectiveParamsPartial any m blockNum !! k = None ->
   ret !! k = GetDefaultGovernanceParamSet !! k) /\
  (is_Some (ret !! k) ->
   is_Some (GetDefaultGovernanceParamSet !! k) \/
   is_Some (Hgm_EffectiveParamsPartial any m blockNum !! k) \/
   is_Some (Cgm_EffectiveParamsPartial any m blockNum !! k)).
Proof.
  intros Hrange ret. subst ret. rewrite EffectiveParamSet_overlay by done.
  destruct (isKoreHF any m blockNum); rewrite !overlay_lookup;
    destruct (Hgm_EffectiveParamsPartial any m blockNum !! k) as [x|] eqn:Eh;
    destruct (Cgm_EffectiveParamsPartial any m blockNum !! k) as [y|] eqn:Ec;
    simpl;
    repeat match goal with
    | |- context [canonical k ?z] => destruct (canonical k z)
    end;
    repeat split; intros; try done; eauto.
Qed.

Lemma X17_EffectiveParamSet_keeps_parameters_witness :
  is_Some (EffectiveParamSet nat sample_canonical sample_default map_to_list
             sample_gov 200 !! "istanbul.committeesize").
Proof.
  apply (X17_EffectiveParamSet_keeps_parameters nat sample_canonical sample_default
           map_to_list sample_gov 200 "istanbul.committeesize").
  - intros q. reflexivity.
  - exists 13. reflexivity.
Defined.

(** X18: a contract governance set in which [Set] accepts nothing, an
    empty one included, changes nothing: past the fork the result is still
    the default overlaid with the header governance parameters. *)
Theorem X18_refused_values_change_nothing
    {ParamName : Type} `{Countable ParamName} (any : Type)
    (canonical : ParamName -> any -> option any)
    (GetDefaultGovernanceParamSet : gmap ParamName any)
    (range : gmap ParamName any -> list (ParamName * any))
    (m : GovModule any) (blockNum : N) :
  (forall q, range q ≡ₚ map_to_list q) ->
  (forall (k : ParamName) (v : any),
     Cgm_EffectiveParamsPartial any m blockNum !! k = Some v -> canonical k v = None) ->
  EffectiveParamSet any canonical GetDefaultGovernanceParamSet range m blockNum
  = overlay any canonical (Hgm_EffectiveParamsPartial any m blockNum)
      GetDefaultGovernanceParamSet.
Proof.
  intros Hrange Hrefused. rewrite EffectiveParamSet_overlay by done.
  destruct (isKoreHF any m blockNum); [|done].
  apply map_eq. intros k. rewrite (overlay_lookup any canonical (Cgm_EffectiveParamsPartial any m blockNum)).
  destruct (Cgm_EffectiveParamsPartial any m blockNum !! k) as [v|] eqn:Ec; [|done].
  simpl. by rewrite (Hrefused k v Ec).
Qed.

Lemma X18_refused_values_change_nothing_witness :
  EffectiveParamSet nat sample_canonical sample_default map_to_list sample_gov_refused 200
  = overlay nat sample_canonical (Hgm_EffectiveParamsPartial nat sample_gov_refused 200)
      sample_default.
Proof.
  apply (X18_refused_values_change_nothing nat sample_canonical sample_default
           map_to_list sample_gov_refused 200).
  - intros q. reflexivity.
  - intros k v Hkv. simpl in Hkv.
    apply lookup_singleton_Some in Hkv as [_ <-]. reflexivity.
Defined.
